(** * target-parquet: a shallow embedding of the message pipeline, the
      schema-to-column mapping and the state encoder.

    Source files covered:
    - [target_parquet/utils/parquet.py]  (module [Parquet])
    - [target_parquet/target.py]         (module [Target])
    - [target_parquet/__init__.py]       (module [Persist])

    Python strings are modelled as [string] (byte strings); [str.upper] is
    the ASCII upper-casing.  Python exceptions are values of [exception];
    a call that may raise returns [result]. *)

From Stdlib Require Import String Ascii List Bool Arith Lia ZArith.
From stdpp Require Import base option list gmap strings pretty.

Local Open Scope string_scope.
Local Open Scope list_scope.

(** ** Python-level preliminaries *)

Module Python.

(** The exception classes that the modelled code raises or lets through. *)
Inductive exception : Type :=
| AttributeError (msg : string)
| TypeError (msg : string)
| ValueError (msg : string)
| KeyError (key : string)
| ValidationError (msg : string)
| RecursionError
| Exception_ (msg : string)
| LibraryError (msg : string).

Inductive result (A : Type) : Type :=
| Ok (a : A)
| Raise (e : exception).

Arguments Ok {A} a.
Arguments Raise {A} e.

Definition bind {A B : Type} (r : result A) (k : A -> result B) : result B :=
  match r with
  | Ok a => k a
  | Raise e => Raise e
  end.

Notation "'try' x <- r 'in' k" := (bind r (fun x => k))
  (at level 10, x name, r at level 100, k at level 200).

(** Running [f] over a list from left to right, up to the first raise. *)
Definition mapM {A B : Type} (f : A -> result B) : list A -> result (list B) :=
  fix go (l : list A) : result (list B) :=
    match l with
    | [] => Ok []
    | x :: xs =>
        try y <- f x in
        try ys <- go xs in
        Ok (y :: ys)
    end.

(** [str.isascii()] *)
Definition is_ascii (s : string) : bool :=
  forallb (fun c => (nat_of_ascii c <? 128)%nat) (list_ascii_of_string s).

(** [str.upper()] on ASCII text. *)
Definition ascii_upper (c : ascii) : ascii :=
  let n := nat_of_ascii c in
  if ((97 <=? n) && (n <=? 122))%nat then ascii_of_nat (n - 32) else c.

Fixpoint upper (s : string) : string :=
  match s with
  | EmptyString => EmptyString
  | String c s' => String (ascii_upper c) (upper s')
  end.

(** [str.lower()] on ASCII text. *)
Definition ascii_lower (c : ascii) : ascii :=
  let n := nat_of_ascii c in
  if ((65 <=? n) && (n <=? 90))%nat then ascii_of_nat (n + 32) else c.

Fixpoint lower (s : string) : string :=
  match s with
  | EmptyString => EmptyString
  | String c s' => String (ascii_lower c) (lower s')
  end.

(** Truth value of a [str]: the empty string is falsy. *)
Definition str_truthy (s : string) : bool :=
  match s with EmptyString => false | _ => true end.

(** [x in l] for a list of strings. *)
Definition contains (x : string) (l : list string) : bool :=
  bool_decide (x ∈ l).

(** [l.remove(x)]: drops the first occurrence of [x] only.  (The source
    guards the call with [x in l], so the [ValueError] of a missing element
    never arises; on a missing element this returns [l].) *)
Fixpoint remove_first (x : string) (l : list string) : list string :=
  match l with
  | [] => []
  | y :: l' => if bool_decide (y = x) then l' else y :: remove_first x l'
  end.

(** [dict.get(k, d)] on a finite map. *)
Definition dict_get {V : Type} (m : gmap string V) (k : string) (d : V) : V :=
  default d (m !! k).

(** A Python [float]: an IEEE-754 binary64, kept as its 64-bit pattern. *)
Record float : Type := mk_float { float_bits : Z }.

(** A finite [decimal.Decimal]: sign, coefficient, exponent. *)
Record Decimal : Type := mk_Decimal {
  dec_sign : bool;
  dec_coefficient : N;
  dec_exponent : Z
}.

(** Python objects as they travel through the target: what the JSON parser
    produces (with [Decimal] numbers), plus [VObject] for any other object.
    A [dict] keeps its insertion order and has [str] keys. *)
#[warnings="-register-all"]
Inductive value : Type :=
| VNone
| VBool (b : bool)
| VInt (z : Z)
| VFloat (f : float)
| VDecimal (d : Decimal)
| VStr (s : string)
| VList (l : list value)
| VDict (items : list (string * value))
| VObject (class_name : string).

(** Induction over [value] that reaches inside lists and dicts. *)
Section value_induction.
Variable P : value -> Prop.
Hypothesis H_none : P VNone.
Hypothesis H_bool : forall b, P (VBool b).
Hypothesis H_int : forall z, P (VInt z).
Hypothesis H_float : forall f, P (VFloat f).
Hypothesis H_decimal : forall d, P (VDecimal d).
Hypothesis H_str : forall s, P (VStr s).
Hypothesis H_list : forall l, Forall P l -> P (VList l).
Hypothesis H_dict : forall items, Forall (fun kv => P (snd kv)) items -> P (VDict items).
Hypothesis H_object : forall c, P (VObject c).

Fixpoint value_nested_ind (v : value) : P v :=
  match v with
  | VNone => H_none
  | VBool b => H_bool b
  | VInt z => H_int z
  | VFloat f => H_float f
  | VDecimal d => H_decimal d
  | VStr s => H_str s
  | VList l =>
      H_list l
        ((fix go (l : list value) : Forall P l :=
            match l with
            | [] => Forall_nil_2 P
            | x :: xs => Forall_cons_2 P x xs (value_nested_ind x) (go xs)
            end) l)
  | VDict items =>
      H_dict items
        ((fix go (l : list (string * value))
            : Forall (fun kv => P (snd kv)) l :=
            match l with
            | [] => Forall_nil_2 _
            | kv :: xs =>
                Forall_cons_2 (fun kv => P (snd kv)) kv xs
                  (value_nested_ind (snd kv)) (go xs)
            end) items)
  | VObject c => H_object c
  end.
End value_induction.

(** [d[k]] on an insertion-ordered dict. *)
Fixpoint assoc {V : Type} (k : string) (items : list (string * V)) : option V :=
  match items with
  | [] => None
  | (k', v) :: rest => if bool_decide (k' = k) then Some v else assoc k rest
  end.

(** [d[k] = v]: an existing key keeps its position, a new key goes last. *)
Fixpoint dict_set {V : Type} (k : string) (v : V) (items : list (string * V))
  : list (string * V) :=
  match items with
  | [] => [(k, v)]
  | (k', v') :: rest =>
      if bool_decide (k' = k) then (k, v) :: rest
      else (k', v') :: dict_set k v rest
  end.

(** [v[k]] on an arbitrary object. *)
Definition getitem (v : value) (k : string) : result value :=
  match v with
  | VDict items =>
      match assoc k items with
      | Some x => Ok x
      | None => Raise (KeyError k)
      end
  | _ => Raise (TypeError "object is not subscriptable by a str key")
  end.

(** The line terminator. *)
Definition newline : string := String (ascii_of_nat 10) EmptyString.

(** [sep.join(parts)]. *)
Fixpoint join (sep : string) (parts : list string) : string :=
  match parts with
  | [] => ""
  | [p] => p
  | p :: rest => p +:+ sep +:+ join sep rest
  end.

End Python.

Import Python.

(** ** utils/parquet.py *)

Module Parquet.

(** The pyarrow data types the target uses. *)
Inductive DataType : Type :=
| bool_          (* pa.bool_() *)
| string_        (* pa.string() *)
| int64          (* pa.int64() *)
| float64        (* pa.float64() *)
| timestamp_us.  (* pa.timestamp("us", tz=None) *)

#[global] Instance DataType_eq_dec : EqDecision DataType.
Proof. solve_decision. Defined.

(** [pa.field(name, type, nullable)]. *)
Record Field : Type := field {
  name : string;
  type : DataType;
  nullable : bool
}.

#[global] Instance Field_eq_dec : EqDecision Field.
Proof. solve_decision. Defined.

Definition FIELD_TYPE_TO_PYARROW : gmap string DataType :=
  list_to_map
    [ ("BOOLEAN", bool_);
      ("STRING", string_);
      ("ARRAY", string_);
      ("INTEGER", int64);
      ("NUMBER", float64);
      ("DATETIME", timestamp_us);
      ("OBJECT", string_) ].

Definition FORMAT_MAPPING : gmap string string :=
  list_to_map
    [ ("singer.decimal", "NUMBER");
      ("date-time", "DATETIME") ].

(** The kinds that [FIELD_TYPE_TO_PYARROW] knows. *)
Definition recognized_kinds : list string :=
  ["BOOLEAN"; "STRING"; "ARRAY"; "INTEGER"; "NUMBER"; "DATETIME"; "OBJECT"].

Definition _cast_input_type_by_format (format input_type : string) : string :=
  if bool_decide (input_type ≠ "STRING") then input_type
  else dict_get FORMAT_MAPPING format input_type.

(** The value stored under the key ["type"]: a single name or a list of
    names, each a [str].  (A ["type"] of another JSON type, or a list with
    an entry that is no [str], is not a value of this type.) *)
Inductive type_decl : Type :=
| TypeName (s : string)
| TypeList (l : list string).

(** The part of a (flattened) JSON-schema property that the mapping reads:
    the keys ["type"], ["anyOf"] (each entry read through its own ["type"]
    key) and ["format"]; [None] is an absent key. *)
Record input_types : Type := mk_input_types {
  it_type : option type_decl;
  it_anyOf : list (option type_decl);
  it_format : option string
}.

Definition decl_truthy (d : type_decl) : bool :=
  match d with
  | TypeName s => str_truthy s
  | TypeList l => match l with [] => false | _ => true end
  end.

(** [types.extend(t)] when [t] is a list, [types.append(t)] otherwise; both
    are list methods, [str] has neither. *)
Definition add_any_type (types : type_decl) (t : type_decl) : result type_decl :=
  match types, t with
  | TypeList l, TypeList l' => Ok (TypeList (l ++ l'))
  | TypeList l, TypeName s => Ok (TypeList (l ++ [s]))
  | TypeName _, TypeList _ =>
      Raise (AttributeError "'str' object has no attribute 'extend'")
  | TypeName _, TypeName _ =>
      Raise (AttributeError "'str' object has no attribute 'append'")
  end.

(** The loop over [input_types.get("anyOf", [])]. *)
Fixpoint any_of_loop (types : type_decl) (any_of : list (option type_decl))
  : result type_decl :=
  match any_of with
  | [] => Ok types
  | any_type :: rest =>
      match any_type with
      | Some t =>
          if decl_truthy t
          then try types' <- add_any_type types t in any_of_loop types' rest
          else any_of_loop types rest
      | None => any_of_loop types rest
      end
  end.

(** Lines 45-54: the list named [types] once it has been normalised. *)
Definition resolve_types (it : input_types) : result (list string) :=
  let types := default (TypeList []) (it_type it) in
  try types <- (if negb (decl_truthy types)
                then any_of_loop types (it_anyOf it)
                else Ok types) in
  Ok (match types with TypeName s => [s] | TypeList l => l end).

(** Lines 57-59: drop one ["NULL"], take the first remaining name. *)
Definition first_type (types_uppercase : list string) : string :=
  let types_uppercase :=
    if contains "NULL" types_uppercase
    then remove_first "NULL" types_uppercase
    else types_uppercase in
  match types_uppercase with
  | t :: _ => t
  | [] => ""
  end.

(** Lines 61-62: the optional cast by format. *)
Definition apply_format (cast_by_format : bool) (format : option string)
    (input_type : string) : string :=
  if cast_by_format then
    match format with
    | Some f => if str_truthy f then _cast_input_type_by_format f input_type
                else input_type
    | None => input_type
    end
  else input_type.

Definition _field_type_to_pyarrow_field (field_name : string)
    (it : input_types) (required_fields : list string)
    (cast_by_format : bool) : result Field :=
  try types <- resolve_types it in
  let types_uppercase := map upper types in
  let nullable :=
    contains "NULL" types_uppercase
    || negb (contains field_name required_fields) in
  let input_type := first_type types_uppercase in
  let input_type := apply_format cast_by_format (it_format it) input_type in
  let pyarrow_type := dict_get FIELD_TYPE_TO_PYARROW input_type string_ in
  Ok (field field_name pyarrow_type nullable).

(** The column type of a type name (line 63). *)
Definition pyarrow_type_of (input_type : string) : DataType :=
  dict_get FIELD_TYPE_TO_PYARROW input_type string_.

(** *** The notions the specification uses for a field *)

Definition decl_names (d : type_decl) : list string :=
  match d with TypeName s => [s] | TypeList l => l end.

(** The [anyOf] entries that carry a non-empty ["type"]. *)
Definition any_of_names (any_of : list (option type_decl)) : list string :=
  flat_map (fun o => match o with
                     | Some t => if decl_truthy t then decl_names t else []
                     | None => []
                     end) any_of.

(** The declared types: those under ["type"], and those of the [anyOf]
    entries when ["type"] is absent or empty. *)
Definition declared_types (it : input_types) : list string :=
  let d := default (TypeList []) (it_type it) in
  if decl_truthy d then decl_names d
  else decl_names d ++ any_of_names (it_anyOf it).

Definition is_null (t : string) : bool := bool_decide (upper t = "NULL").

(** The declared types that are not ["null"], compared without case. *)
Definition non_null_types (it : input_types) : list string :=
  filter (fun t => is_null t = false) (declared_types it).

(** The first declared non-null type, upper-cased ([""] when none). *)
Definition first_non_null (it : input_types) : string :=
  match non_null_types it with
  | t :: _ => upper t
  | [] => ""
  end.

(** The declared list opens with two ["null"] entries. *)
Definition two_leading_nulls (it : input_types) : bool :=
  match declared_types it with
  | t1 :: t2 :: _ => is_null t1 && is_null t2
  | _ => false
  end.

(** ["type"] is the empty string while some [anyOf] entry declares a type. *)
Definition empty_name_with_any_of (it : input_types) : bool :=
  match it_type it with
  | Some (TypeName s) =>
      negb (str_truthy s)
      && match any_of_names (it_anyOf it) with [] => false | _ => true end
  | _ => false
  end.

(** *** Tables *)

(** [pa.Schema]: the fields in declaration order. *)
Definition Schema : Type := list Field.

Definition names (S : Schema) : list string := map name S.

(** A flattened record: a [dict] read through [row.get(f)] only. *)
Definition row : Type := gmap string value.

Definition row_get (r : row) (f : string) : value := default VNone (r !! f).

(** [pa.Table]: a schema, and the named columns in order.  A cell is the
    value pyarrow stores, read back as a Python object ([VNone] is a null
    cell). *)
Record Table : Type := mk_Table {
  tbl_schema : Schema;
  tbl_columns : list (string * list value)
}.

Definition column_names (t : Table) : list string := map fst (tbl_columns t).

(** [t.column(f)[i]]: the cell of the column named [f] at row [i]. *)
Definition cell (t : Table) (f : string) (i : nat) : option value :=
  try_col ← assoc f (tbl_columns t); try_col !! i.

(** [len(t)], that is [t.num_rows]: the length of the columns. *)
Definition num_rows (t : Table) : nat :=
  match tbl_columns t with
  | [] => 0
  | (_, c) :: _ => length c
  end.

(** [[row.get(f) for row in list_dict]] *)
Definition column_of (list_dict : list row) (f : string) : list value :=
  map (fun r => row_get r f) list_dict.

(** Rows and cells of the [pyarrow_table] argument, which may be [None]. *)
Definition rows_of (t : option Table) : nat :=
  match t with Some t => num_rows t | None => 0 end.

Definition cell_of (t : option Table) (f : string) (i : nat) : option value :=
  match t with Some t => cell t f i | None => None end.

(** A null stays a null; any other value goes through [f]. *)
Definition keep_null (f : value -> value) (v : value) : value :=
  match v with
  | VNone => VNone
  | _ => f v
  end.

Definition no_error (o : option exception) : bool :=
  match o with
  | None => true
  | Some _ => false
  end.

Section tables.
(** pyarrow's part of [pa.table(data).cast(schema)].
    - [array_error c]: the error of [pa.table] when no array can be built
      from the values [c] of a column (no common type, a value out of
      range), [None] when one can;
    - [array_cell c v]: the cell that array holds for the value [v];
    - [cast_error fld c]: the error of [Table.cast] when the built column
      [c] does not convert to the field [fld] (its type, or a null under a
      field that is not nullable), [None] when it does;
    - [cast_cell fld c v]: the cell of the converted column for the cell [v];
    - [repr_names]: [repr] of a list of names, for the error message. *)
Variable array_error : list value -> option exception.
Variable array_cell : list value -> value -> value.
Variable cast_error : Field -> list value -> option exception.
Variable cast_cell : Field -> list value -> value -> value.
Variable repr_names : list string -> string.

(** The dict comprehension [{f: [row.get(f) for row in list_dict] for f in
    schema.names}]: keys are inserted in the order of [schema.names]. *)
Definition column_data (list_dict : list row) (fields : list string)
  : list (string * list value) :=
  fold_left
    (fun data f => dict_set f (column_of list_dict f) data)
    fields [].

(** The array built from a column, and the column converted to a field. *)
Definition built (c : list value) : list value :=
  map (keep_null (array_cell c)) c.

Definition converted (fld : Field) (c : list value) : list value :=
  map (keep_null (cast_cell fld c)) c.

(** The cell stored, in the end, for the value [v] of the column [c]. *)
Definition stored (fld : Field) (c : list value) (v : value) : value :=
  keep_null (cast_cell fld (built c)) (keep_null (array_cell c) v).

(** pyarrow accepts a column under a field: it builds the array and
    converts it. *)
Definition accepts (fld : Field) (c : list value) : bool :=
  no_error (array_error c) && no_error (cast_error fld (built c)).

(** [pa.table(data)]: one array per column, in the order of the dict; the
    first column that cannot be built raises. *)
Definition pa_table (data : list (string * list value))
  : result (list (string * list value)) :=
  mapM (fun kc =>
          match array_error (snd kc) with
          | Some e => Raise e
          | None => Ok (fst kc, built (snd kc))
          end)
       data.

(** [Table.cast(schema)]: the column names have to be those of the target
    schema; then the columns are converted one after the other. *)
Definition cast (columns : list (string * list value)) (S : Schema)
  : result Table :=
  if bool_decide (map fst columns = names S) then
    try cols <-
      mapM (fun fc =>
              match cast_error (fst fc) (snd (snd fc)) with
              | Some e => Raise e
              | None => Ok (fst (snd fc), converted (fst fc) (snd (snd fc)))
              end)
           (zip S columns) in
    Ok (mk_Table S cols)
  else Raise (ValueError
    ("Target schema's field names are not matching the table's field names: "
     +:+ repr_names (map fst columns) +:+ ", " +:+ repr_names (names S))).

Definition create_pyarrow_table (list_dict : list row) (S : Schema)
  : result Table :=
  let data := column_data list_dict (names S) in
  try table <- pa_table data in
  cast table S.

(** [pa.concat_tables([a, b])]: equal schemas, columns appended. *)
Definition pa_concat_tables (a b : Table) : result Table :=
  if bool_decide (tbl_schema a = tbl_schema b) then
    Ok (mk_Table (tbl_schema a)
          (zip_with (fun ca cb => (fst ca, snd ca ++ snd cb))
             (tbl_columns a) (tbl_columns b)))
  else Raise (LibraryError "ArrowInvalid").

(** Truth value of the [pyarrow_table] argument: [None] is falsy, a table
    is truthy when [len(table)] is not zero. *)
Definition table_truthy (t : option Table) : bool :=
  match t with
  | None => false
  | Some t => negb (num_rows t =? 0)%nat
  end.

Definition concat_tables (records : list row) (pyarrow_table : option Table)
    (pyarrow_schema : Schema) : result (option Table) :=
  match records with
  | [] => Ok pyarrow_table
  | _ =>
      try new_table <- create_pyarrow_table records pyarrow_schema in
      match pyarrow_table with
      | Some t =>
          if table_truthy pyarrow_table
          then try r <- pa_concat_tables t new_table in Ok (Some r)
          else Ok (Some new_table)
      | None => Ok (Some new_table)
      end
  end.
End tables.

(** The same fragment with every declared type name in upper case. *)
Definition upper_decl (d : type_decl) : type_decl :=
  match d with
  | TypeName s => TypeName (upper s)
  | TypeList l => TypeList (map upper l)
  end.

Definition upper_types (it : input_types) : input_types :=
  mk_input_types (option_map upper_decl (it_type it))
    (map (option_map upper_decl) (it_anyOf it)) (it_format it).

(** *** Schemas from flattened JSON schemas, and the write request *)

Definition EXTENSION_MAPPING : gmap string string :=
  list_to_map
    [ ("snappy", ".snappy"); ("gzip", ".gz"); ("brotli", ".br");
      ("zstd", ".zstd"); ("lz4", ".lz4") ].

(** The dictionary handed to [flatten_schema_to_pyarrow_schema]: the keys
    ["properties"] (a dict, in insertion order) and ["required"]. *)
Record flatten_schema_dictionary : Type := mk_flatten_schema_dictionary {
  fsd_properties : option (list (string * input_types));
  fsd_required : option (list string)
}.

Definition flatten_schema_to_pyarrow_schema (d : flatten_schema_dictionary)
    (cast_by_format : bool) : result Schema :=
  let flatten_schema := default [] (fsd_properties d) in
  let required_fields := default [] (fsd_required d) in
  mapM (fun item =>
          _field_type_to_pyarrow_field (fst item) (snd item)
            required_fields cast_by_format)
       flatten_schema.

(** The arguments [write_parquet_file] hands to [pq.write_to_dataset]. *)
Record write_request : Type := mk_write_request {
  wr_table : Table;
  wr_root_path : string;
  wr_compression : string;
  wr_partition_cols : option (list string);
  wr_basename_template : option string
}.

Section write.
(** [pq.write_to_dataset] on the arguments it is handed: the error it
    raises, or [None] when it writes the dataset. *)
Variable write_to_dataset : write_request -> option exception.

(** [write_parquet_file]: the arguments are evaluated first
    ([partition_cols or None], and the basename, whose extension is looked
    up only when a template is given), then the writer is called.  A call
    that returns gives back the request the writer has served. *)
Definition write_parquet_file (table : Table) (path : string)
    (compression_method : string) (basename_template : option string)
    (partition_cols : option (list string)) : result write_request :=
  let partition_cols :=
    match partition_cols with
    | Some (c :: cs) => Some (c :: cs)
    | _ => None
    end in
  try basename <-
    match basename_template with
    | Some b =>
        if str_truthy b then
          match EXTENSION_MAPPING !! lower compression_method with
          | Some ext => Ok (Some (b +:+ ext +:+ ".parquet"))
          | None => Raise (KeyError (lower compression_method))
          end
        else Ok None
    | None => Ok None
    end in
  let request :=
    mk_write_request table path compression_method partition_cols basename in
  match write_to_dataset request with
  | Some e => Raise e
  | None => Ok request
  end.

End write.

(** A table is rectangular when all its columns have one length, and it is
    well-formed when moreover the columns are those of its schema. *)
Definition rectangular (t : Table) : Prop :=
  forall c, c ∈ tbl_columns t -> length (snd c) = num_rows t.

Definition well_formed (t : Table) : Prop :=
  column_names t = names (tbl_schema t) /\ rectangular t.

End Parquet.


(** ** target.py *)

Module Target.

Section json.
(** [float(d)] for a [Decimal], [repr] of a float, and the quoting and
    escaping of a [str] are Python's own. *)
Variable float_of_Decimal : Decimal -> float.
Variable float_repr : float -> string.
Variable encode_basestring_ascii : string -> string.

(** An encoder class is its [default] method, called on every object that
    is not of a JSON type; what it returns is encoded in its place. *)
Class JSONEncoder : Type := { default_ : value -> result value }.

(** [json.JSONEncoder.default] *)
Definition base_default (obj : value) : result value :=
  Raise (TypeError "Object is not JSON serializable").

#[local] Instance JSONEncoder_base : JSONEncoder :=
  {| default_ := base_default |}.

(** [DecimalEncoder.default] *)
Definition DecimalEncoder_default (obj : value) : result value :=
  match obj with
  | VDecimal d => Ok (VFloat (float_of_Decimal d))
  | _ => base_default obj
  end.

#[local] Instance DecimalEncoder : JSONEncoder :=
  {| default_ := DecimalEncoder_default |}.

(** The encoder proper.  [depth] bounds the chain of [default] calls, as
    the interpreter's recursion limit does. *)
Fixpoint iterencode (cls : JSONEncoder) (depth : nat) : value -> result string :=
  fix go (o : value) : result string :=
    match o with
    | VStr s => Ok (encode_basestring_ascii s)
    | VNone => Ok "null"
    | VBool true => Ok "true"
    | VBool false => Ok "false"
    | VInt z => Ok (pretty z)
    | VFloat f => Ok (float_repr f)
    | VList l =>
        try chunks <- mapM go l in
        Ok ("[" +:+ join ", " chunks +:+ "]")
    | VDict items =>
        try chunks <-
          mapM (fun kv =>
                  try c <- go (snd kv) in
                  Ok (encode_basestring_ascii (fst kv) +:+ ": " +:+ c))
               items in
        Ok ("{" +:+ join ", " chunks +:+ "}")
    | VDecimal _ | VObject _ =>
        match depth with
        | O => Raise RecursionError
        | S depth' =>
            try o' <- @default_ cls o in
            iterencode cls depth' o'
        end
    end.

Definition recursion_limit : nat := 1000.

(** [json.dumps(obj, cls=cls)] *)
Definition dumps (cls : JSONEncoder) (obj : value) : result string :=
  iterencode cls recursion_limit obj.

(** [TargetParquet._write_state_message]: the text appended to stdout. *)
Definition _write_state_message (state : value) (stdout : string)
  : result string :=
  try state_json <- dumps DecimalEncoder state in
  Ok (stdout +:+ state_json +:+ newline).

(** The state with every [Decimal] replaced by its float, at any depth. *)
Fixpoint decimals_as_floats (v : value) : value :=
  match v with
  | VDecimal d => VFloat (float_of_Decimal d)
  | VList l => VList (map decimals_as_floats l)
  | VDict items =>
      VDict (map (fun kv => (fst kv, decimals_as_floats (snd kv))) items)
  | _ => v
  end.
(** Only JSON types inside: no [Decimal] and no other object. *)
Fixpoint json_only (v : value) : bool :=
  match v with
  | VObject _ | VDecimal _ => false
  | VList l => forallb json_only l
  | VDict items => forallb (fun kv => json_only (snd kv)) items
  | _ => true
  end.

(** Some object inside is of no JSON type and no [Decimal]. *)
Fixpoint has_object (v : value) : bool :=
  match v with
  | VObject _ => true
  | VList l => existsb has_object l
  | VDict items => existsb (fun kv => has_object (snd kv)) items
  | _ => false
  end.
End json.

End Target.

(** ** __init__.py *)

Module Persist.

Inductive MessageType : Type := RECORD | STATE | SCHEMA | EOF.

#[global] Instance MessageType_eq_dec : EqDecision MessageType.
Proof. solve_decision. Defined.

(** What [singer.parse_message(line).asdict()] yields: one constructor per
    message class of the singer library, keyed by its ["type"]. *)
Inductive message : Type :=
| RecordMessage (stream : string) (record : value)
| StateMessage (value_ : value)
| SchemaMessage (stream : string) (schema : value) (key_properties : value)
| ActivateVersionMessage (stream : string) (version : value).

(** The outcome of line 122 on one input line. *)
Inductive parse_outcome : Type :=
| Parsed (m : message)
| JSONDecodeError
| ParseRaises (e : exception).

(** A flattened schema is a [dict]; a flattened record is a [dict] too. *)
Definition flat_schema : Type := list (string * value).
Definition flat_record : Type := gmap string value.

(** The tuples put on the queue: [(message_type, stream_name, record)]. *)
Inductive queue_name : Type :=
| Stream (s : string)
| _break_object.

Inductive payload : Type :=
| PRecord (r : flat_record)
| PSchema (s : flat_schema)
| PNone.

Definition queue_item : Type := MessageType * queue_name * payload.

Definition eof_item : queue_item := (EOF, _break_object, PNone).

Definition is_eof (q : queue_item) : bool :=
  bool_decide (fst (fst q) = EOF).

(** The item carries a record of [stream]. *)
Definition is_record_of (stream : string) (q : queue_item) : bool :=
  match q with
  | (RECORD, Stream s, _) => bool_decide (s = stream)
  | _ => false
  end.

(** The message of the [ValueError] of line 129. *)
Definition record_before_schema (stream : string) : exception :=
  ValueError ("A record for stream " +:+ stream +:+
              " was encountered before a corresponding schema").

(** The three dictionaries shared by the closures of [persist_messages]. *)
Record shared : Type := mk_shared {
  schemas : gmap string flat_schema;
  key_properties_ : gmap string value;
  validators : gmap string value
}.

(** The producer's locals: the shared dictionaries, [state], and the queue
    as the list of items put so far. *)
Record producer_state : Type := mk_producer_state {
  dicts : shared;
  state : value;
  w_queue : list queue_item
}.

Definition initial : producer_state :=
  mk_producer_state (mk_shared ∅ ∅ ∅) VNone [].

(** The table built by [create_dataframe]: named columns, and the schema it
    was cast to ([None] when the column types are those pyarrow inferred). *)
Record dataframe : Type := mk_dataframe {
  df_schema : option Parquet.Schema;
  df_columns : list (string * list value)
}.

(** A file on disk: its path and the table written to it. *)
Definition file : Type := (string * dataframe)%type.

Section persist_messages.
(** The libraries and helpers the module calls. *)
Variable parse_message : string -> parse_outcome.
(** [Draft4Validator(schema).validate(record)]: [Some e] when it raises. *)
Variable validate : value -> value -> option exception.
(** [helpers.flatten] and [helpers.flatten_schema]. *)
Variable flatten : value -> flat_schema -> result flat_record.
Variable flatten_schema : value -> result flat_schema.

(** The body of the loop of [producer] for one line (lines 120-155). *)
Definition handle_line (line : string) (p : producer_state)
  : result producer_state :=
  try message <-
    match parse_message line with
    | Parsed m => Ok m
    | JSONDecodeError => Raise (Exception_ ("Unable to parse:" +:+ newline +:+ line))
    | ParseRaises e => Raise e
    end in
  match message with
  | RecordMessage stream record =>
      match schemas (dicts p) !! stream with
      | None => Raise (record_before_schema stream)
      | Some schema =>
          try validator <-
            match validators (dicts p) !! stream with
            | Some v => Ok v
            | None => Raise (KeyError stream)
            end in
          match validate validator record with
          | Some e => Raise e
          | None =>
              try flattened_record <- flatten record schema in
              Ok (mk_producer_state (dicts p) VNone
                    (w_queue p ++ [(RECORD, Stream stream, PRecord flattened_record)]))
          end
      end
  | StateMessage v =>
      Ok (mk_producer_state (dicts p) v (w_queue p))
  | SchemaMessage stream schema key_properties =>
      let validators' := <[stream := schema]> (validators (dicts p)) in
      try properties <- getitem schema "properties" in
      try flattened <- flatten_schema properties in
      let schemas' := <[stream := flattened]> (schemas (dicts p)) in
      let key_properties' := <[stream := key_properties]> (key_properties_ (dicts p)) in
      Ok (mk_producer_state (mk_shared schemas' key_properties' validators')
            (state p)
            (w_queue p ++ [(SCHEMA, Stream stream, PSchema flattened)]))
  | ActivateVersionMessage _ _ =>
      Ok p
  end.

(** What a line is, by the message it parses to. *)
Definition is_state_line (line : string) : bool :=
  match parse_message line with
  | Parsed (StateMessage _) => true
  | _ => false
  end.

Definition is_record_line (line : string) : bool :=
  match parse_message line with
  | Parsed (RecordMessage _ _) => true
  | _ => false
  end.

(** The line is a SCHEMA message for [stream]. *)
Definition declares (stream : string) (line : string) : bool :=
  match parse_message line with
  | Parsed (SchemaMessage s _ _) => bool_decide (s = stream)
  | _ => false
  end.

(** The [for] loop: stops at the first line that raises, and hands back the
    queue as it was at that point. *)
Fixpoint producer_loop (message_buffer : list string) (p : producer_state)
  : producer_state * option exception :=
  match message_buffer with
  | [] => (p, None)
  | line :: rest =>
      match handle_line line p with
      | Ok p' => producer_loop rest p'
      | Raise e => (p, Some e)
      end
  end.

(** [producer(message_buffer, w_queue)]: the final queue, and the returned
    state or the exception raised again by the handler. *)
Definition producer (message_buffer : list string)
  : list queue_item * result value :=
  let '(p, err) := producer_loop message_buffer initial in
  match err with
  | None => (w_queue p ++ [eof_item], Ok (state p))
  | Some e => (w_queue p ++ [eof_item], Raise e)
  end.

(** *** Static information and [write_file] *)

Variable destination_path : string.
Variable compression_method : option string.
Variable streams_in_separate_folder : bool.
Variable force_output_schema_cast : bool.
(** [os.path.sep], [os.path.join] and [os.path.expanduser]. *)
Variable os_path_sep : string.
Variable os_path_join : string -> string -> string.
Variable os_path_expanduser : string -> string.
(** [helpers.flatten_schema_to_pyarrow_schema(schema, fields)], and
    pyarrow's part of [pa.table] and [Table.cast] (as in [Parquet]). *)
Variable flatten_schema_to_pyarrow_schema :
  flat_schema -> list string -> result Parquet.Schema.
Variable array_error : list value -> option exception.
Variable array_cell : list value -> value -> value.
Variable cast_error : Parquet.Field -> list value -> option exception.
Variable cast_cell : Parquet.Field -> list value -> value -> value.
Variable repr_names : list string -> string.

Definition extension_mapping : gmap string string :=
  list_to_map
    [ ("SNAPPY", ".snappy"); ("GZIP", ".gz"); ("BROTLI", ".br");
      ("ZSTD", ".zstd"); ("LZ4", ".lz4") ].

(** Lines 88-102: the extension, and the method handed to the writer. *)
Definition compression : string * option string :=
  match compression_method with
  | Some m =>
      if str_truthy m then
        match extension_mapping !! upper m with
        | Some ext => (ext, Some m)
        | None => ("", None)
        end
      else ("", compression_method)
  | None => ("", None)
  end.

Definition compression_extension : string := fst compression.

Definition filename_separator : string :=
  if streams_in_separate_folder then os_path_sep else "-".

(** [create_dataframe]: one column per key that occurs in some record; the
    keys are collected in a [set], iterated in the set's own order.  The
    table is built before the flag is looked at. *)
Definition create_dataframe (list_dict : list flat_record)
    (schema : flat_schema) : result dataframe :=
  let fields : gset string :=
    fold_left (fun fields d => fields ∪ dom d) list_dict ∅ in
  let data :=
    map (fun f => (f, map (fun r => Parquet.row_get r f) list_dict))
        (elements fields) in
  try table <- Parquet.pa_table array_error array_cell data in
  if force_output_schema_cast then
    match schema with
    | [] => Raise (Exception_
        "Not possible to force the cast because the schema was not provided.")
    | _ =>
        try S <- flatten_schema_to_pyarrow_schema schema (elements fields) in
        try t <- Parquet.cast cast_error cast_cell repr_names table S in
        Ok (mk_dataframe (Some S) (Parquet.tbl_columns t))
    end
  else Ok (mk_dataframe None table).

(** [write_file]: the path it returns and the file it leaves there;
    [timestamp] is the formatted reading of the clock. *)
Definition write_file (timestamp : string) (current_stream_name : string)
    (record : list flat_record) (schema : flat_schema) : result file :=
  try dataframe <- create_dataframe record schema in
  let filename :=
    current_stream_name +:+ filename_separator +:+ timestamp
    +:+ compression_extension +:+ ".parquet" in
  let filepath := os_path_expanduser (os_path_join destination_path filename) in
  Ok (filepath, dataframe).

(** [consumer(receiver)]: takes items off the queue until the end marker.
    No branch of the loop calls [write_file].
    [files_created] is returned on leaving the loop; [None] is a consumer
    left waiting on an empty queue. *)
Fixpoint consumer_loop (files_created : list file) (receiver : list queue_item)
  : option (list file) :=
  match receiver with
  | [] => None
  | item :: rest =>
      if is_eof item then Some files_created
      else consumer_loop files_created rest
  end.

Definition consumer (receiver : list queue_item) : option (list file) :=
  consumer_loop [] receiver.

(** [persist_messages]: the files the consumer process leaves behind, and
    what the call returns or raises. *)
Definition persist_messages (messages : list string)
  : option (list file) * result value :=
  let '(q, r) := producer messages in
  (consumer q, r).

(** *** [emit_state] and the end of [main] *)

(** [simplejson.dumps] *)
Variable simplejson_dumps : value -> result string.

(** [emit_state(state)]: the text of stdout afterwards. *)
Definition emit_state (state : value) (stdout : string) : result string :=
  match state with
  | VNone => Ok stdout
  | _ =>
      try line <- simplejson_dumps state in
      Ok (stdout +:+ line +:+ newline)
  end.

(** Lines 283-292 of [main]: run the pipeline, then emit the state. *)
Definition main_tail (input_messages : list string) (stdout : string)
  : result string :=
  try state <- snd (persist_messages input_messages) in
  emit_state state stdout.

(** The item a handled line puts on the queue, by kind and stream. *)
Definition line_item (line : string) : option (MessageType * queue_name) :=
  match parse_message line with
  | Parsed (RecordMessage stream _) => Some (RECORD, Stream stream)
  | Parsed (SchemaMessage stream _ _) => Some (SCHEMA, Stream stream)
  | _ => None
  end.

(** The line is an ACTIVATE_VERSION message: one that
    [singer.parse_message] returns and that is neither a RECORD, a STATE
    nor a SCHEMA.  (A line whose type [singer.parse_message] does not know
    makes line 122 raise: it is a [ParseRaises] outcome.) *)
Definition is_activate_version_line (line : string) : bool :=
  match parse_message line with
  | Parsed (ActivateVersionMessage _ _) => true
  | _ => false
  end.

End persist_messages.

End Persist.

(** ** Concrete inputs used further down *)

Module Examples.
Import Parquet Persist.

(** Schema fragments. *)
Definition date_time_field : input_types :=
  mk_input_types (Some (TypeList ["null"; "string"])) [] (Some "date-time").

Definition double_null_field : input_types :=
  mk_input_types (Some (TypeList ["null"; "null"; "string"])) []
    (Some "date-time").

Definition junk_field : input_types :=
  mk_input_types (Some (TypeList ["null"; "money"])) [] None.

Definition empty_name_field : input_types :=
  mk_input_types (Some (TypeName "")) [Some (TypeName "money")] None.

(** The properties of a flattened schema, as given to
    [flatten_schema_to_pyarrow_schema]. *)
Definition example_properties : flatten_schema_dictionary :=
  mk_flatten_schema_dictionary
    (Some [ ("key_1", mk_input_types (Some (TypeList ["null"; "integer"])) [] None);
            ("key_2__key_3", mk_input_types (Some (TypeList ["null"; "string"])) [] None);
            ("when", date_time_field) ])
    (Some ["key_1"]).

(** Flattened records, a schema and a table with one row. *)
Definition row_x : row := {[ "col_a" := VStr "x" ]}.
Definition row_y : row := <[ "extra" := VInt 1 ]> {[ "col_a" := VStr "y" ]}.

Definition col_a_field : Field := field "col_a" string_ true.
Definition col_b_field : Field := field "col_b" string_ true.

Definition two_columns : Schema := [col_a_field; col_b_field].

(** A schema that names [col_a] twice, and a record whose [col_a] is a
    number written as text, under a column of doubles. *)
Definition twice_col_a : Schema := [col_a_field; col_a_field].
Definition row_half : row := {[ "col_a" := VStr "0.5" ]}.
Definition col_a_double : Field := field "col_a" float64 true.

Definition one_row_table : Table :=
  mk_Table two_columns [("col_a", [VStr "w"]); ("col_b", [VNone])].

(** A pyarrow that takes every column and stores every value as it is, and
    [repr] for lists of plain names. *)
Definition no_array_error (c : list value) : option exception := None.
Definition cell_kept (c : list value) (v : value) : value := v.
Definition no_cast_error (fld : Field) (c : list value) : option exception :=
  None.
Definition cast_kept (fld : Field) (c : list value) (v : value) : value := v.
Definition show_names (l : list string) : string :=
  "[" +:+ join ", " (map (fun n => "'" +:+ n +:+ "'") l) +:+ "]".

(** The conversion of the text [0.5] to a double under a [float64] field
    (the double is given by its bits), other cells left as they are. *)
Definition half : float := mk_float 4602678819172646912.

Definition cast_text_to_double (fld : Field) (c : list value) (v : value)
  : value :=
  match type fld, v with
  | float64, VStr "0.5" => VFloat half
  | _, _ => v
  end.

(** The stream of the end-to-end scenario: one SCHEMA that declares the
    string column [col_a], then the records [{col_a: x}] and [{col_a: y}].
    The three lines are named rather than spelled out as JSON text. *)
Definition col_a_schema : value :=
  VDict [("type", VStr "object");
         ("properties",
          VDict [("col_a", VDict [("type", VList [VStr "string"])])])].

Definition scenario_parse (line : string) : parse_outcome :=
  if bool_decide (line = "SCHEMA s") then
    Parsed (SchemaMessage "s" col_a_schema (VList []))
  else if bool_decide (line = "RECORD s x") then
    Parsed (RecordMessage "s" (VDict [("col_a", VStr "x")]))
  else if bool_decide (line = "RECORD s y") then
    Parsed (RecordMessage "s" (VDict [("col_a", VStr "y")]))
  else if bool_decide (line = "RECORD s2 z") then
    Parsed (RecordMessage "s2" (VDict [("col_a", VStr "z")]))
  else if bool_decide (line = "STATE 7") then
    Parsed (StateMessage (VDict [("bookmark", VInt 7)]))
  else JSONDecodeError.

Definition scenario_validate (schema record : value) : option exception := None.

(** On flat input, flattening is the identity. *)
Definition scenario_flatten (record : value) (schema : flat_schema)
  : result flat_record :=
  match record with
  | VDict items => Ok (list_to_map items)
  | _ => Raise (TypeError "record is not a dict")
  end.

Definition scenario_flatten_schema (properties : value) : result flat_schema :=
  match properties with
  | VDict items => Ok items
  | _ => Raise (TypeError "properties is not a dict")
  end.

Definition scenario : list string := ["SCHEMA s"; "RECORD s x"; "RECORD s y"].

(** A parser that knows a few more lines, a validator that rejects a number
    under [col_a], and a stand-in for [simplejson.dumps]. *)
Definition more_parse (line : string) : parse_outcome :=
  if bool_decide (line = "SCHEMA s bare") then
    Parsed (SchemaMessage "s" (VDict [("type", VStr "object")]) (VList []))
  else if bool_decide (line = "ACTIVATE_VERSION s") then
    Parsed (ActivateVersionMessage "s" (VInt 1))
  else if bool_decide (line = "RECORD s 1") then
    Parsed (RecordMessage "s" (VDict [("col_a", VInt 1)]))
  else scenario_parse line.

Definition more_validate (schema record : value) : option exception :=
  match record with
  | VDict [(_, VInt _)] => Some (ValidationError "1 is not of type 'string'")
  | _ => None
  end.

Definition more_dumps (state : value) : result string := Ok "{}".

End Examples.

(** * Properties of utils/parquet.py *)

Module ParquetFacts.
Import Parquet Examples.

(** ** Lists and dictionaries *)

Lemma contains_true x l : contains x l = true <-> x ∈ l.
Proof. unfold contains. apply bool_decide_eq_true. Qed.

Lemma contains_false x l : contains x l = false <-> x ∉ l.
Proof. unfold contains. apply bool_decide_eq_false. Qed.

Lemma lookup_unrecognized (k : string) :
  k ∉ recognized_kinds -> FIELD_TYPE_TO_PYARROW !! k = None.
Proof.
  intros Hk. unfold FIELD_TYPE_TO_PYARROW.
  apply not_elem_of_list_to_map_1. exact Hk.
Qed.

Lemma null_unrecognized : "NULL" ∉ recognized_kinds.
Proof.
  unfold recognized_kinds. rewrite !elem_of_cons, elem_of_nil.
  intuition discriminate.
Qed.

Lemma empty_unrecognized : "" ∉ recognized_kinds.
Proof.
  unfold recognized_kinds. rewrite !elem_of_cons, elem_of_nil.
  intuition discriminate.
Qed.

Lemma string_recognized : "STRING" ∈ recognized_kinds.
Proof. unfold recognized_kinds. right. left. Qed.

Lemma pyarrow_type_of_unrecognized (k : string) :
  k ∉ recognized_kinds -> pyarrow_type_of k = string_.
Proof.
  intros Hk. unfold pyarrow_type_of, dict_get.
  now rewrite lookup_unrecognized.
Qed.

Lemma cast_not_string fmt ty :
  ty <> "STRING" -> _cast_input_type_by_format fmt ty = ty.
Proof.
  intros H. unfold _cast_input_type_by_format.
  now rewrite bool_decide_eq_true_2.
Qed.

Lemma apply_format_not_string cbf fmt ty :
  ty <> "STRING" -> apply_format cbf fmt ty = ty.
Proof.
  intros H. unfold apply_format.
  destruct cbf; [|reflexivity].
  destruct fmt as [f|]; [|reflexivity].
  destruct (str_truthy f); [|reflexivity].
  now apply cast_not_string.
Qed.

(** ** Resolving the declared types *)

Lemma any_of_loop_list l any_of :
  any_of_loop (TypeList l) any_of = Ok (TypeList (l ++ any_of_names any_of)).
Proof.
  revert l. induction any_of as [|o rest IH]; intros l; simpl.
  - now rewrite app_nil_r.
  - destruct o as [t|]; [|apply IH].
    destruct (decl_truthy t) eqn:Ht; [|apply IH].
    destruct t as [s|l']; simpl; rewrite IH; now rewrite <- app_assoc.
Qed.

Lemma any_of_loop_name_quiet s any_of :
  any_of_names any_of = [] ->
  any_of_loop (TypeName s) any_of = Ok (TypeName s).
Proof.
  induction any_of as [|o rest IH]; simpl; [reflexivity|].
  intros H. apply app_eq_nil in H as [H1 H2].
  destruct o as [t|]; [|now apply IH].
  destruct (decl_truthy t) eqn:Ht; [|now apply IH].
  destruct t as [s'|l']; simpl in *; [discriminate|].
  subst l'. discriminate.
Qed.

Lemma any_of_loop_name_raises s any_of :
  any_of_names any_of <> [] ->
  exists msg, any_of_loop (TypeName s) any_of = Raise (AttributeError msg).
Proof.
  induction any_of as [|o rest IH]; simpl; [congruence|].
  intros H.
  destruct o as [t|]; [|now apply IH].
  destruct (decl_truthy t) eqn:Ht; [|now apply IH].
  destruct t as [s'|l']; simpl; eauto.
Qed.

(** Whenever the code gets past lines 45-54, [types] is the list of the
    declared types. *)
Lemma resolve_types_declared it types :
  resolve_types it = Ok types -> types = declared_types it.
Proof.
  unfold resolve_types, declared_types.
  destruct (default (TypeList []) (it_type it)) as [s|l] eqn:Hd.
  - destruct (decl_truthy (TypeName s)) eqn:Ht; simpl.
    + intros [= <-]. reflexivity.
    + destruct (any_of_names (it_anyOf it)) as [|a r] eqn:Ha.
      * rewrite any_of_loop_name_quiet by assumption. simpl.
        intros [= <-]. reflexivity.
      * destruct (any_of_loop_name_raises s (it_anyOf it)) as [msg ->];
          [congruence|]. simpl. discriminate.
  - destruct (decl_truthy (TypeList l)) eqn:Ht; simpl.
    + intros [= <-]. reflexivity.
    + rewrite any_of_loop_list. simpl. intros [= <-]. reflexivity.
Qed.

(** Lines 45-54 raise in one case only. *)
Lemma resolve_types_total it :
  empty_name_with_any_of it = false ->
  resolve_types it = Ok (declared_types it).
Proof.
  unfold empty_name_with_any_of, resolve_types, declared_types.
  destruct (it_type it) as [[s|l]|]; simpl.
  - destruct (str_truthy s) eqn:Hs; simpl; [reflexivity|].
    destruct (any_of_names (it_anyOf it)) eqn:Ha; [|discriminate].
    intros _. rewrite any_of_loop_name_quiet by assumption. reflexivity.
  - intros _. destruct l; simpl; [|reflexivity].
    now rewrite any_of_loop_list.
  - intros _. now rewrite any_of_loop_list.
Qed.

Lemma resolve_types_raises it :
  empty_name_with_any_of it = true ->
  exists msg, resolve_types it = Raise (AttributeError msg).
Proof.
  unfold empty_name_with_any_of, resolve_types.
  destruct (it_type it) as [[s|l]|]; simpl; try discriminate.
  destruct (str_truthy s) eqn:Hs; simpl; [discriminate|].
  destruct (any_of_names (it_anyOf it)) eqn:Ha; [discriminate|].
  intros _.
  destruct (any_of_loop_name_raises s (it_anyOf it)) as [msg ->];
    [congruence|]. simpl. eauto.
Qed.

(** ** The first remaining type *)

Lemma first_type_cons_other x l :
  x <> "NULL" -> first_type (x :: l) = x.
Proof.
  intros Hx. unfold first_type.
  destruct (contains "NULL" (x :: l)); simpl; [|reflexivity].
  now rewrite bool_decide_eq_false_2.
Qed.

Lemma first_type_cons_null l :
  first_type ("NULL" :: l) = match l with t :: _ => t | [] => "" end.
Proof.
  unfold first_type.
  replace (contains "NULL" ("NULL" :: l)) with true.
  - simpl. reflexivity.
  - symmetry. apply contains_true. left.
Qed.

Lemma filter_upper_non_null (l : list string) :
  map upper (filter (fun t => is_null t = false) l)
  = filter (fun u => u <> "NULL") (map upper l).
Proof.
  induction l as [|t l IH]; [reflexivity|].
  destruct (decide (upper t = "NULL")) as [E|E].
  - rewrite filter_cons_False.
    2: { unfold is_null. rewrite bool_decide_eq_true_2 by assumption.
         discriminate. }
    cbn [map]. rewrite filter_cons_False by (intros H; now apply H).
    exact IH.
  - rewrite filter_cons_True.
    2: { unfold is_null. now rewrite bool_decide_eq_false_2. }
    cbn [map]. rewrite filter_cons_True by assumption. now rewrite IH.
Qed.

Lemma first_non_null_filter it :
  first_non_null it
  = match filter (fun u => u <> "NULL") (map upper (declared_types it)) with
    | t :: _ => t
    | [] => ""
    end.
Proof.
  unfold first_non_null, non_null_types.
  rewrite <- filter_upper_non_null.
  now destruct (filter _ (declared_types it)).
Qed.

(** Line 59 yields the first type that is not ["NULL"], unless the list
    opens with two ["NULL"] entries: then it yields ["NULL"]. *)
Lemma first_type_filter (l : list string) :
  (forall r, l <> "NULL" :: "NULL" :: r) ->
  first_type l = match filter (fun u => u <> "NULL") l with
                 | t :: _ => t
                 | [] => ""
                 end.
Proof.
  intros H. destruct l as [|x l].
  - reflexivity.
  - destruct (decide (x = "NULL")) as [->|Hx].
    + rewrite first_type_cons_null. rewrite filter_cons.
      destruct (decide ("NULL" <> "NULL")); [contradiction|].
      destruct l as [|y l]; [reflexivity|].
      rewrite filter_cons.
      destruct (decide (y <> "NULL")); [reflexivity|].
      exfalso. apply (H l). f_equal. f_equal.
      destruct (decide (y = "NULL")); [assumption|contradiction].
    + rewrite first_type_cons_other by assumption.
      rewrite filter_cons. now destruct (decide (x <> "NULL")).
Qed.

Lemma first_type_two_nulls r : first_type ("NULL" :: "NULL" :: r) = "NULL".
Proof. now rewrite first_type_cons_null. Qed.

Lemma two_leading_nulls_false it :
  two_leading_nulls it = false ->
  forall r, map upper (declared_types it) <> "NULL" :: "NULL" :: r.
Proof.
  unfold two_leading_nulls. intros H r E.
  destruct (declared_types it) as [|t1 [|t2 l]]; try discriminate.
  cbn [map] in E. injection E as E1 E2 _.
  unfold is_null in H.
  rewrite !bool_decide_eq_true_2 in H by assumption. discriminate.
Qed.

Lemma resolved_first_non_null it :
  two_leading_nulls it = false ->
  first_type (map upper (declared_types it)) = first_non_null it.
Proof.
  intros H. rewrite first_non_null_filter.
  apply first_type_filter. now apply two_leading_nulls_false.
Qed.

(** The field that comes back, spelled out. *)
Lemma field_of_declared field_name it required cbf f :
  _field_type_to_pyarrow_field field_name it required cbf = Ok f ->
  let tu := map upper (declared_types it) in
  f = field field_name
        (pyarrow_type_of (apply_format cbf (it_format it) (first_type tu)))
        (contains "NULL" tu || negb (contains field_name required)).
Proof.
  unfold _field_type_to_pyarrow_field.
  destruct (resolve_types it) as [types|e] eqn:Hr; simpl; [|discriminate].
  apply resolve_types_declared in Hr. subst types.
  intros [= <-]. reflexivity.
Qed.

Lemma apply_format_mapped fmt kind :
  FORMAT_MAPPING !! fmt = Some kind -> str_truthy fmt = true ->
  apply_format true (Some fmt) "STRING" = kind.
Proof.
  intros Hm Ht. unfold apply_format. rewrite Ht.
  unfold _cast_input_type_by_format, dict_get.
  rewrite bool_decide_eq_false_2 by (intros E; now apply E).
  now rewrite Hm.
Qed.

Lemma format_mapping_other fmt :
  fmt <> "date-time" -> fmt <> "singer.decimal" -> FORMAT_MAPPING !! fmt = None.
Proof.
  intros H1 H2. unfold FORMAT_MAPPING.
  apply not_elem_of_list_to_map_1. cbn.
  rewrite !elem_of_cons, elem_of_nil. intuition congruence.
Qed.

Lemma apply_format_unchanged cbf fmt ty :
  cbf = false \/ ty <> "STRING"
  \/ (fmt <> Some "date-time" /\ fmt <> Some "singer.decimal") ->
  apply_format cbf fmt ty = ty.
Proof.
  intros [->|[H|[H1 H2]]]; [reflexivity|now apply apply_format_not_string|].
  unfold apply_format. destruct cbf; [|reflexivity].
  destruct fmt as [f|]; [|reflexivity].
  destruct (str_truthy f); [|reflexivity].
  unfold _cast_input_type_by_format, dict_get.
  destruct (bool_decide (ty <> "STRING")); [reflexivity|].
  rewrite format_mapping_other; [reflexivity| |]; congruence.
Qed.

(** ** Claims on [_field_type_to_pyarrow_field] *)




(** C5.  The produced field is nullable exactly when some declared type is
    ["null"] up to case, or the field name is not in the required list. *)
Theorem C5_nullable field_name it required cbf f :
  _field_type_to_pyarrow_field field_name it required cbf = Ok f ->
  nullable f = true
  <-> ((exists t, t ∈ declared_types it /\ upper t = "NULL")
       \/ field_name ∉ required).
Proof.
  intros Hf. apply field_of_declared in Hf. cbn zeta in Hf. subst f.
  cbn [nullable]. rewrite orb_true_iff, negb_true_iff.
  rewrite contains_true, contains_false.
  rewrite list_elem_of_fmap. split.
  - intros [[t [E Ht]]|H]; [left; eauto|right; assumption].
  - intros [[t [Ht E]]|H]; [left; eauto|right; assumption].
Qed.

Lemma C5_nullable_witness :
  nullable (field "col_a" timestamp_us true) = true
  <-> ((exists t, t ∈ declared_types date_time_field /\ upper t = "NULL")
       \/ "col_a" ∉ ["col_a"]).
Proof.
  apply (C5_nullable "col_a" date_time_field ["col_a"] true).
  vm_compute. reflexivity.
Defined.

(** Unless ["type"] is the empty string while an [anyOf] entry declares a
    type, a fragment whose type names are strings gives a field; and when no
    declared type is left once the ["null"] entries are removed, or the
    first one left is not a recognised kind, that field has the string
    column type. *)
Lemma typed_fragment_string_fallback field_name it required cbf :
  empty_name_with_any_of it = false ->
  exists f,
    _field_type_to_pyarrow_field field_name it required cbf = Ok f
    /\ name f = field_name
    /\ (non_null_types it = [] \/ first_non_null it ∉ recognized_kinds ->
        type f = string_).
Proof.
  intros H. unfold _field_type_to_pyarrow_field.
  rewrite resolve_types_total by assumption. cbn [bind].
  eexists. split; [reflexivity|]. split; [reflexivity|]. cbn [type].
  intros Hk.
  assert (Hk' : first_non_null it ∉ recognized_kinds).
  { destruct Hk as [Hk|Hk]; [|exact Hk].
    unfold first_non_null. rewrite Hk. exact empty_unrecognized. }
  clear Hk. rename Hk' into Hk.
  set (tu := map upper (declared_types it)).
  assert (Hty : first_type tu ∉ recognized_kinds).
  { destruct (two_leading_nulls it) eqn:Hn.
    - unfold two_leading_nulls in Hn. subst tu.
      destruct (declared_types it) as [|t1 [|t2 l]]; try discriminate.
      apply andb_true_iff in Hn as [H1 H2].
      apply bool_decide_eq_true in H1, H2. cbn [map]. rewrite H1, H2.
      rewrite first_type_two_nulls. exact null_unrecognized.
    - subst tu. now rewrite resolved_first_non_null. }
  rewrite apply_format_not_string.
  - now apply pyarrow_type_of_unrecognized.
  - intros E. apply Hty. rewrite E. exact string_recognized.
Qed.

Lemma typed_fragment_string_fallback_witness :
  exists f,
    _field_type_to_pyarrow_field "col_a" junk_field [] false = Ok f
    /\ name f = "col_a"
    /\ (non_null_types junk_field = []
        \/ first_non_null junk_field ∉ recognized_kinds ->
        type f = string_).
Proof.
  apply (typed_fragment_string_fallback "col_a" junk_field [] false).
  vm_compute. reflexivity.
Defined.

(** C8, on the code.  For a field whose ["type"] is the empty string and
    whose [anyOf] declares the type [money], no recognised kind is declared,
    and the call raises [AttributeError] where a string field is specified:
    the type found under [anyOf] is appended to the empty string.  The same
    [anyOf] under an absent ["type"], or under an empty list, gives the
    string field. *)
Theorem C8_empty_type_raises :
  (first_non_null empty_name_field ∉ recognized_kinds)
  /\ _field_type_to_pyarrow_field "col_a" empty_name_field [] false
     = Raise (AttributeError "'str' object has no attribute 'append'")
  /\ ~ (exists f,
       _field_type_to_pyarrow_field "col_a" empty_name_field [] false = Ok f)
  /\ _field_type_to_pyarrow_field "col_a"
       (mk_input_types None (it_anyOf empty_name_field) None) [] false
     = Ok (field "col_a" string_ true)
  /\ _field_type_to_pyarrow_field "col_a"
       (mk_input_types (Some (TypeList [])) (it_anyOf empty_name_field) None)
       [] false
     = Ok (field "col_a" string_ true).
Proof.
  split; [|split; [|split; [|split]]].
  - replace (first_non_null empty_name_field) with ""
      by (vm_compute; reflexivity).
    exact empty_unrecognized.
  - vm_compute. reflexivity.
  - intros [f Hf]. vm_compute in Hf. discriminate.
  - vm_compute. reflexivity.
  - vm_compute. reflexivity.
Qed.

(** ** Insertion-ordered dictionaries *)

Lemma dict_set_fresh {V : Type} (k : string) (v : V) d :
  k ∉ map fst d -> dict_set k v d = d ++ [(k, v)].
Proof.
  induction d as [|[k' v'] d IH]; intros H; simpl; [reflexivity|].
  cbn [map fst] in H. apply not_elem_of_cons in H as [H1 H2].
  rewrite bool_decide_eq_false_2 by congruence.
  now rewrite IH.
Qed.

Lemma dict_set_Forall {V : Type} (P : string * V -> Prop) k v d :
  Forall P d -> P (k, v) -> Forall P (dict_set k v d).
Proof.
  intros Hd Hkv. induction Hd as [|[k' v'] d Hx Hd IH]; simpl.
  - now constructor.
  - destruct (bool_decide (k' = k)); constructor; assumption.
Qed.

Lemma assoc_map_self {V : Type} (g : string -> V) fs f :
  assoc f (map (fun k => (k, g k)) fs)
  = if bool_decide (f ∈ fs) then Some (g f) else None.
Proof.
  induction fs as [|k fs IH]; cbn [map assoc].
  - rewrite bool_decide_eq_false_2; [reflexivity|apply not_elem_of_nil].
  - destruct (decide (k = f)) as [->|Hk].
    + rewrite bool_decide_eq_true_2 by reflexivity.
      rewrite bool_decide_eq_true_2; [reflexivity|left].
    + rewrite bool_decide_eq_false_2 by assumption. rewrite IH.
      destruct (decide (f ∈ fs)) as [Hin|Hin].
      * rewrite !bool_decide_eq_true_2; [reflexivity|now right|assumption].
      * rewrite !bool_decide_eq_false_2; [reflexivity| |assumption].
        rewrite elem_of_cons. intuition congruence.
Qed.

Lemma assoc_elem_of {V : Type} f (d : list (string * V)) c :
  assoc f d = Some c -> (f, c) ∈ d.
Proof.
  induction d as [|[k v] d IH]; simpl; [discriminate|].
  destruct (decide (k = f)) as [->|Hk].
  - rewrite bool_decide_eq_true_2 by reflexivity. intros [= ->]. left.
  - rewrite bool_decide_eq_false_2 by assumption. intros H. right. auto.
Qed.

Lemma assoc_None_keys {V : Type} f (d : list (string * V)) :
  assoc f d = None <-> f ∉ map fst d.
Proof.
  induction d as [|[k v] d IH]; simpl.
  - split; [intros _; apply not_elem_of_nil|reflexivity].
  - destruct (decide (k = f)) as [->|Hk].
    + rewrite bool_decide_eq_true_2 by reflexivity. split; [discriminate|].
      intros H. exfalso. apply H. left.
    + rewrite bool_decide_eq_false_2 by assumption. rewrite IH.
      rewrite not_elem_of_cons. intuition congruence.
Qed.

Lemma self_keyed {V : Type} (g : string -> V) (d : list (string * V)) :
  Forall (fun kc => snd kc = g (fst kc)) d ->
  d = map (fun k => (k, g k)) (map fst d).
Proof.
  induction 1 as [|[k c] d Hx Hd IH]; [reflexivity|].
  simpl in *. subst c. now rewrite <- IH.
Qed.

Lemma dict_set_keys {V : Type} (k : string) (v : V) d :
  map fst (dict_set k v d)
  = if bool_decide (k ∈ map fst d) then map fst d else map fst d ++ [k].
Proof.
  induction d as [|[k' v'] d IH]; cbn [dict_set map fst app].
  - rewrite bool_decide_eq_false_2; [reflexivity|apply not_elem_of_nil].
  - destruct (decide (k' = k)) as [->|Hk].
    + rewrite bool_decide_eq_true_2 by reflexivity.
      rewrite bool_decide_eq_true_2; [reflexivity|left].
    + rewrite bool_decide_eq_false_2 by assumption.
      cbn [map fst]. rewrite IH.
      destruct (decide (k ∈ map fst d)) as [Hin|Hin].
      * rewrite !bool_decide_eq_true_2; [reflexivity|now right|assumption].
      * rewrite !bool_decide_eq_false_2; [reflexivity| |assumption].
        rewrite elem_of_cons. intuition congruence.
Qed.

Lemma dict_set_NoDup {V : Type} (k : string) (v : V) d :
  NoDup (map fst d) -> NoDup (map fst (dict_set k v d)).
Proof.
  intros H. rewrite dict_set_keys.
  destruct (decide (k ∈ map fst d)) as [Hin|Hin].
  - now rewrite bool_decide_eq_true_2.
  - rewrite bool_decide_eq_false_2 by assumption.
    apply NoDup_app. split; [assumption|]. split.
    + intros x Hx Hk. apply list_elem_of_singleton in Hk. now subst.
    + apply NoDup_singleton.
Qed.

(** ** Lists built entry by entry *)

Lemma mapM_guard_Ok {A B : Type} (err : A -> option exception) (g : A -> B)
    l ys :
  mapM (fun x => match err x with
                 | Some e => Raise e
                 | None => Ok (g x)
                 end) l = Ok ys ->
  ys = map g l /\ Forall (fun x => err x = None) l.
Proof.
  revert ys. induction l as [|x l IH]; intros ys; cbn [mapM map].
  - intros [= <-]. split; [reflexivity|constructor].
  - destruct (err x) as [e|] eqn:Hx; cbn [bind]; [discriminate|].
    match goal with |- context [bind ?m _] => destruct m as [ys'|e] end;
      cbn [bind]; [|discriminate].
    intros [= <-]. destruct (IH ys' eq_refl) as [-> Hl].
    split; [reflexivity|now constructor].
Qed.

Lemma mapM_guard_None {A B : Type} (err : A -> option exception)
    (g : A -> B) l :
  Forall (fun x => err x = None) l ->
  mapM (fun x => match err x with
                 | Some e => Raise e
                 | None => Ok (g x)
                 end) l = Ok (map g l).
Proof.
  induction 1 as [|x l Hx _ IH]; [reflexivity|].
  cbn [mapM map]. rewrite Hx. cbn [bind].
  match goal with |- context [bind ?m _] => change m with
    (mapM (fun x => match err x with
                    | Some e => Raise e
                    | None => Ok (g x)
                    end) l) end.
  now rewrite IH.
Qed.

Lemma mapM_guard_Raise {A B : Type} (err : A -> option exception)
    (g : A -> B) l e :
  mapM (fun x => match err x with
                 | Some e => Raise e
                 | None => Ok (g x)
                 end) l = Raise e ->
  exists x, x ∈ l /\ err x = Some e.
Proof.
  induction l as [|x l IH]; cbn [mapM]; [discriminate|].
  destruct (err x) as [e'|] eqn:Hx; cbn [bind].
  - intros [= ->]. exists x. split; [left|assumption].
  - match goal with |- context [bind ?m _] => destruct m as [ys'|e'] eqn:Hl end;
      cbn [bind]; [discriminate|].
    intros [= ->]. destruct (IH eq_refl) as (x' & Hin & Hx').
    exists x'. split; [now right|assumption].
Qed.

Lemma zip_map_self {A B : Type} (f : A -> B) (l : list A) :
  zip l (map f l) = map (fun x => (x, f x)) l.
Proof.
  induction l as [|x l IH]; [reflexivity|].
  cbn [map zip_with]. now rewrite IH.
Qed.

Lemma assoc_map_keyed {A V : Type} (k : A -> string) (h : A -> V) l x :
  NoDup (map k l) -> x ∈ l ->
  assoc (k x) (map (fun y => (k y, h y)) l) = Some (h x).
Proof.
  induction l as [|y l IH]; intros Hnd Hin.
  - now apply elem_of_nil in Hin.
  - cbn [map] in *. apply NoDup_cons in Hnd as [Hy Hnd]. cbn [assoc].
    apply elem_of_cons in Hin as [->|Hin].
    + now rewrite bool_decide_eq_true_2.
    + rewrite bool_decide_eq_false_2; [now apply IH|].
      intros E. apply Hy. rewrite E. apply list_elem_of_fmap. eauto.
Qed.

Lemma no_error_true o : no_error o = true <-> o = None.
Proof. destruct o; split; (discriminate || reflexivity). Qed.

(** ** Tables *)

Section table_facts.
Variable array_error : list value -> option exception.
Variable array_cell : list value -> value -> value.
Variable cast_error : Field -> list value -> option exception.
Variable cast_cell : Field -> list value -> value -> value.
Variable repr_names : list string -> string.

Local Abbreviation built := (Parquet.built array_cell).
Local Abbreviation converted := (Parquet.converted cast_cell).
Local Abbreviation stored := (Parquet.stored array_cell cast_cell).
Local Abbreviation accepts :=
  (Parquet.accepts array_error array_cell cast_error).
Local Abbreviation pa_table := (Parquet.pa_table array_error array_cell).
Local Abbreviation cast := (Parquet.cast cast_error cast_cell repr_names).
Local Abbreviation create_pyarrow_table :=
  (Parquet.create_pyarrow_table
     array_error array_cell cast_error cast_cell repr_names).
Local Abbreviation concat_tables :=
  (Parquet.concat_tables
     array_error array_cell cast_error cast_cell repr_names).

(** The table built from the records [rs] under the schema [S]. *)
#[warnings="-inconsistent-scopes"]
Local Abbreviation created rs S :=
  (mk_Table S
     (map (fun fld => (name fld,
                       converted fld (built (column_of rs (name fld)))))
          S)).

Lemma column_data_from rs fs d :
  NoDup (map fst d ++ fs) ->
  fold_left (fun data f => dict_set f (column_of rs f) data) fs d
  = d ++ map (fun f => (f, column_of rs f)) fs.
Proof.
  revert d. induction fs as [|f fs IH]; intros d Hnd; simpl.
  - now rewrite app_nil_r.
  - rewrite dict_set_fresh.
    + rewrite IH.
      * now rewrite <- app_assoc.
      * rewrite map_app. simpl. now rewrite <- app_assoc.
    + apply NoDup_app in Hnd as (_ & Hdis & _).
      intros Hin. apply (Hdis f Hin). left.
Qed.

(** With pairwise distinct names, the dictionary has one column per name,
    in the order of the names. *)
Lemma column_data_NoDup rs fs :
  NoDup fs ->
  column_data rs fs = map (fun f => (f, column_of rs f)) fs.
Proof.
  intros H. unfold column_data. now rewrite column_data_from.
Qed.

Lemma column_data_self_keyed rs fs :
  Forall (fun kc => snd kc = column_of rs (fst kc)) (column_data rs fs).
Proof.
  unfold column_data.
  enough (G : forall d,
    Forall (fun kc => snd kc = column_of rs (fst kc)) d ->
    Forall (fun kc => snd kc = column_of rs (fst kc))
      (fold_left (fun data f => dict_set f (column_of rs f) data) fs d)).
  { apply G. constructor. }
  induction fs as [|f fs IH]; intros d Hd; simpl; [assumption|].
  apply IH. apply dict_set_Forall; [assumption|reflexivity].
Qed.

(** A dictionary holds each key once. *)
Lemma column_data_keys_NoDup rs fs : NoDup (map fst (column_data rs fs)).
Proof.
  unfold column_data.
  enough (G : forall d, NoDup (map fst d) ->
    NoDup (map fst (fold_left
      (fun data f => dict_set f (column_of rs f) data) fs d))).
  { apply G. constructor. }
  induction fs as [|f fs IH]; intros d Hd; cbn [fold_left]; [assumption|].
  apply IH. now apply dict_set_NoDup.
Qed.

(** [pa.table] keeps the keys and builds one array per column. *)
Lemma pa_table_Ok data table :
  pa_table data = Ok table ->
  table = map (fun kc => (fst kc, built (snd kc))) data
  /\ Forall (fun kc => array_error (snd kc) = None) data.
Proof.
  apply (mapM_guard_Ok (fun kc => array_error (snd kc))
           (fun kc => (fst kc, built (snd kc)))).
Qed.

Lemma pa_table_keys data table :
  pa_table data = Ok table -> map fst table = map fst data.
Proof.
  intros H. apply pa_table_Ok in H as [-> _]. now rewrite map_map.
Qed.

Lemma cast_Ok columns S t :
  cast columns S = Ok t ->
  map fst columns = names S
  /\ t = mk_Table S
           (map (fun fc => (fst (snd fc),
                            converted (fst fc) (snd (snd fc))))
                (zip S columns))
  /\ Forall (fun fc => cast_error (fst fc) (snd (snd fc)) = None)
       (zip S columns).
Proof.
  unfold Parquet.cast.
  destruct (bool_decide _) eqn:Hn; [|discriminate].
  apply bool_decide_eq_true in Hn.
  match goal with |- context [bind ?m _] => destruct m as [cols|e] eqn:Hc end;
    cbn [bind]; [|discriminate].
  intros [= <-].
  apply (mapM_guard_Ok (fun fc => cast_error (fst fc) (snd (snd fc)))
           (fun fc => (fst (snd fc), converted (fst fc) (snd (snd fc)))))
    in Hc as [-> Hall].
  auto.
Qed.

(** What a successful [create_pyarrow_table] returns, and what it takes for
    it to return. *)
Lemma create_pyarrow_table_Ok rs S t :
  create_pyarrow_table rs S = Ok t ->
  t = created rs S
  /\ NoDup (names S)
  /\ (forall fld, fld ∈ S -> accepts fld (column_of rs (name fld)) = true).
Proof.
  unfold Parquet.create_pyarrow_table.
  destruct (pa_table _) as [table|e] eqn:Htable; cbn [bind]; [|discriminate].
  intros Ht. apply cast_Ok in Ht as (Hn & -> & Hcast).
  pose proof (pa_table_keys _ _ Htable) as Hk. rewrite Hn in Hk.
  apply pa_table_Ok in Htable as [-> Harr].
  assert (Hnd : NoDup (names S)).
  { rewrite Hk. apply column_data_keys_NoDup. }
  rewrite column_data_NoDup in * by assumption.
  unfold names in Hcast, Harr |- *. rewrite !map_map in *. cbn [fst snd] in *.
  rewrite zip_map_self in *. rewrite map_map in *. cbn [fst snd] in *.
  split; [reflexivity|]. split; [assumption|].
  intros fld Hin. unfold Parquet.accepts. apply andb_true_iff.
  rewrite !no_error_true. split.
  - rewrite Forall_fmap, Forall_forall in Harr. now apply Harr.
  - rewrite Forall_fmap, Forall_forall in Hcast. now apply Hcast.
Qed.

Lemma create_pyarrow_table_succeeds rs S :
  NoDup (names S) ->
  (forall fld, fld ∈ S -> accepts fld (column_of rs (name fld)) = true) ->
  create_pyarrow_table rs S = Ok (created rs S).
Proof.
  intros Hnd Hacc. unfold Parquet.create_pyarrow_table.
  rewrite column_data_NoDup by assumption.
  unfold Parquet.pa_table.
  rewrite (mapM_guard_None (fun kc => array_error (snd kc))
             (fun kc => (fst kc, built (snd kc)))).
  2: { unfold names. rewrite map_map, Forall_fmap. apply Forall_forall.
       intros fld Hin. cbn. specialize (Hacc fld Hin).
       apply andb_true_iff in Hacc as [Ha _]. now apply no_error_true. }
  cbn [bind]. unfold Parquet.cast.
  rewrite bool_decide_eq_true_2.
  2: { rewrite !map_map. cbn. apply map_id. }
  unfold names. rewrite !map_map. cbn [fst snd]. rewrite zip_map_self.
  rewrite (mapM_guard_None (fun fc => cast_error (fst fc) (snd (snd fc)))
             (fun fc => (fst (snd fc), converted (fst fc) (snd (snd fc))))).
  2: { rewrite Forall_fmap. apply Forall_forall.
       intros fld Hin. cbn. specialize (Hacc fld Hin).
       apply andb_true_iff in Hacc as [_ Hc]. now apply no_error_true. }
  cbn [bind]. now rewrite map_map.
Qed.

Lemma column_names_created rs S : column_names (created rs S) = names S.
Proof.
  unfold column_names. cbn [tbl_columns]. now rewrite map_map.
Qed.

Lemma keep_null_None f : keep_null f VNone = VNone.
Proof. reflexivity. Qed.

Lemma converted_built_lookup fld (c : list value) i :
  converted fld (built c) !! i = stored fld c <$> (c !! i).
Proof.
  unfold Parquet.converted, Parquet.built, Parquet.stored.
  rewrite !list_lookup_fmap. now destruct (c !! i).
Qed.

Lemma cell_created rs S fld i :
  NoDup (names S) -> fld ∈ S ->
  cell (created rs S) (name fld) i
  = (fun r => stored fld (column_of rs (name fld)) (row_get r (name fld)))
      <$> (rs !! i).
Proof.
  intros Hnd Hin. unfold cell. cbn [tbl_columns].
  rewrite (assoc_map_keyed name
             (fun fld => converted fld (built (column_of rs (name fld)))))
    by assumption.
  cbn. rewrite converted_built_lookup. unfold column_of at 2.
  rewrite list_lookup_fmap. now destruct (rs !! i).
Qed.

Lemma cell_created_outside rs S f i :
  f ∉ names S -> cell (created rs S) f i = None.
Proof.
  intros Hf. unfold cell. cbn [tbl_columns].
  replace (assoc f _) with (@None (list value)); [reflexivity|].
  symmetry. apply assoc_None_keys. now rewrite map_map.
Qed.

Lemma created_column_length rs S c :
  c ∈ tbl_columns (created rs S) -> length (snd c) = length rs.
Proof.
  cbn [tbl_columns]. intros Hc.
  apply list_elem_of_fmap in Hc as (fld & -> & _). cbn [snd].
  unfold Parquet.converted, Parquet.built, column_of.
  now rewrite !length_map.
Qed.

Lemma cell_created_past rs S f i :
  length rs <= i -> cell (created rs S) f i = None.
Proof.
  intros Hi. unfold cell.
  destruct (assoc f (tbl_columns (created rs S))) as [c|] eqn:Hc;
    [|reflexivity].
  apply assoc_elem_of, created_column_length in Hc. cbn in *.
  apply lookup_ge_None_2. lia.
Qed.


(** ** Concatenation *)

Lemma created_num_rows rs S :
  S <> [] -> num_rows (created rs S) = length rs.
Proof.
  destruct S as [|fld S]; [congruence|]. intros _.
  unfold num_rows. cbn [tbl_columns map snd].
  unfold Parquet.converted, Parquet.built, column_of.
  now rewrite !length_map.
Qed.

Lemma assoc_zip_append f (a b : list (string * list value)) :
  map fst a = map fst b ->
  assoc f (zip_with (fun ca cb => (fst ca, snd ca ++ snd cb)) a b)
  = match assoc f a, assoc f b with
    | Some x, Some y => Some (x ++ y)
    | _, _ => None
    end
  /\ (assoc f a = None <-> assoc f b = None).
Proof.
  revert b. induction a as [|[k x] a IH]; intros [|[k' y] b] E;
    try discriminate; [now split|].
  cbn [map fst] in E. injection E as <- E.
  cbn [zip_with assoc fst snd].
  destruct (bool_decide (k = f)).
  - split; [reflexivity|]. split; discriminate.
  - now apply IH.
Qed.

Lemma num_rows_zip_append (a b : Table) :
  column_names a = column_names b ->
  num_rows (mk_Table (tbl_schema a)
              (zip_with (fun ca cb => (fst ca, snd ca ++ snd cb))
                 (tbl_columns a) (tbl_columns b)))
  = num_rows a + num_rows b.
Proof.
  unfold column_names, num_rows. cbn [tbl_columns].
  destruct (tbl_columns a) as [|[k x] ca], (tbl_columns b) as [|[k' y] cb];
    try discriminate; [reflexivity|].
  intros _. simpl. apply length_app.
Qed.

Lemma cell_zip_append (a b : Table) f i :
  column_names a = column_names b -> rectangular a ->
  cell (mk_Table (tbl_schema a)
          (zip_with (fun ca cb => (fst ca, snd ca ++ snd cb))
             (tbl_columns a) (tbl_columns b))) f i
  = if (i <? num_rows a)%nat then cell a f i else cell b f (i - num_rows a).
Proof.
  intros Hn Hrect. unfold cell. cbn [tbl_columns].
  destruct (assoc_zip_append f _ _ Hn) as [-> Hnone].
  destruct (assoc f (tbl_columns a)) as [x|] eqn:Ha.
  - destruct (assoc f (tbl_columns b)) as [y|] eqn:Hb.
    + simpl. apply assoc_elem_of in Ha. apply Hrect in Ha. simpl in Ha.
      destruct (Nat.ltb_spec i (num_rows a)) as [Hlt|Hge].
      * apply lookup_app_l. lia.
      * rewrite lookup_app_r by lia. now rewrite Ha.
    + destruct Hnone as [_ Hnone]. now specialize (Hnone eq_refl).
  - rewrite (proj1 Hnone) by reflexivity. simpl.
    now destruct (i <? num_rows a)%nat.
Qed.

(** C9.  [concat_tables] returns the existing table unchanged when the list
    of records is empty.  With records, and an existing table that is
    well-formed, the result holds the rows of the existing table first and
    those built from the records after them, each in their own order. *)
Theorem C9_concat_tables records pyarrow_table S :
  concat_tables [] pyarrow_table S = Ok pyarrow_table
  /\ (records <> [] ->
      (forall t, pyarrow_table = Some t -> well_formed t) ->
      forall r, concat_tables records pyarrow_table S = Ok r ->
      exists new_table res,
        create_pyarrow_table records S = Ok new_table
        /\ r = Some res
        /\ num_rows res = rows_of pyarrow_table + num_rows new_table
        /\ forall f i,
             cell res f i
             = if (i <? rows_of pyarrow_table)%nat
               then cell_of pyarrow_table f i
               else cell new_table f (i - rows_of pyarrow_table)).
Proof.
  split; [reflexivity|].
  intros Hrec Hwf r. unfold Parquet.concat_tables.
  destruct records as [|r0 records]; [congruence|].
  destruct (create_pyarrow_table (r0 :: records) S)
    as [new_table|e] eqn:Hnew; [|discriminate].
  cbn [bind].
  assert (Hfalsy : forall t, rows_of t = 0 ->
    exists res, Some new_table = Some res
      /\ num_rows res = rows_of t + num_rows new_table
      /\ forall f i, cell res f i
           = if (i <? rows_of t)%nat then cell_of t f i
             else cell new_table f (i - rows_of t)).
  { intros t Ht. exists new_table. rewrite Ht.
    split; [reflexivity|]. split; [reflexivity|].
    intros f i. simpl. now rewrite Nat.sub_0_r. }
  destruct pyarrow_table as [t|].
  - unfold table_truthy.
    destruct (Nat.eqb_spec (num_rows t) 0) as [Hz|Hnz]; simpl.
    + intros [= <-]. exists new_table.
      destruct (Hfalsy (Some t) Hz) as (res & E & Hres).
      injection E as <-. eauto.
    + unfold pa_concat_tables.
      destruct (bool_decide _) eqn:Hs; [|discriminate].
      apply bool_decide_eq_true in Hs. simpl. intros [= <-].
      destruct (Hwf t eq_refl) as [Hcols Hrect].
      assert (Hn : column_names t = column_names new_table).
      { rewrite Hcols, Hs.
        apply create_pyarrow_table_Ok in Hnew as [-> _].
        cbn [tbl_schema]. symmetry. apply column_names_created. }
      eexists _, _. split; [reflexivity|]. split; [reflexivity|].
      split.
      * now apply num_rows_zip_append.
      * intros f i. now apply cell_zip_append.
  - intros [= <-]. exists new_table.
    destruct (Hfalsy None eq_refl) as (res & E & Hres).
    injection E as <-. eauto.
Qed.

End table_facts.

Local Abbreviation plain_table :=
  (create_pyarrow_table
     no_array_error cell_kept no_cast_error cast_kept show_names).
Local Abbreviation plain_concat :=
  (concat_tables
     no_array_error cell_kept no_cast_error cast_kept show_names).



Lemma one_row_table_well_formed : well_formed one_row_table.
Proof.
  split; [reflexivity|].
  unfold rectangular. apply Forall_forall. repeat constructor.
Qed.

(** C9 on a table of one row and two records. *)
Lemma C9_concat_tables_witness :
  plain_concat [] (Some one_row_table) two_columns
  = Ok (Some one_row_table)
  /\ exists new_table res,
       plain_table [row_x; row_y] two_columns = Ok new_table
       /\ plain_concat [row_x; row_y] (Some one_row_table) two_columns
          = Ok (Some res)
       /\ num_rows res = 1 + num_rows new_table
       /\ cell res "col_a" 0 = Some (VStr "w")
       /\ cell res "col_a" 2 = cell new_table "col_a" 1.
Proof.
  destruct (C9_concat_tables no_array_error cell_kept no_cast_error
              cast_kept show_names [row_x; row_y] (Some one_row_table)
              two_columns) as [Hid Hcat].
  split; [exact Hid|].
  destruct (plain_concat [row_x; row_y] (Some one_row_table)
              two_columns) as [r|e] eqn:Hr; [|vm_compute in Hr; discriminate].
  destruct (Hcat ltac:(discriminate)
              ltac:(intros t [= <-]; exact one_row_table_well_formed)
              r eq_refl)
    as (new_table & res & Hnew & -> & Hrows & Hcells).
  exists new_table, res. split; [exact Hnew|]. split; [reflexivity|].
  split; [exact Hrows|]. split.
  - rewrite (Hcells "col_a" 0). reflexivity.
  - rewrite (Hcells "col_a" 2). reflexivity.
Defined.

End ParquetFacts.

(** * Properties of target.py *)

Module TargetFacts.
Import Target.

Lemma mapM_ext_map {A B : Type} (f g : A -> result B) (h : A -> A) l :
  Forall (fun x => f x = g (h x)) l -> mapM f l = mapM g (map h l).
Proof.
  induction 1 as [|x l Hx Hl IH]; [reflexivity|].
  cbn [mapM map]. rewrite Hx. fold (mapM f l). fold (mapM g (map h l)).
  now rewrite IH.
Qed.

Section json_facts.
Variable float_of_Decimal : Decimal -> float.
Variable float_repr : float -> string.
Variable encode_basestring_ascii : string -> string.

Local Abbreviation encode := (iterencode float_repr encode_basestring_ascii).
Local Abbreviation decimal_encoder := (DecimalEncoder float_of_Decimal).
Local Abbreviation normalise := (decimals_as_floats float_of_Decimal).

(** A float is encoded at any depth. *)
Lemma iterencode_float cls depth f :
  encode cls depth (VFloat f) = Ok (float_repr f).
Proof. destruct depth; reflexivity. Qed.

(** With room for one [default] call, encoding with [DecimalEncoder] is
    encoding the normalised value with the plain encoder. *)
Lemma iterencode_DecimalEncoder depth v :
  encode decimal_encoder (S depth) v
  = encode JSONEncoder_base (S depth) (normalise v).
Proof.
  induction v using value_nested_ind; try reflexivity.
  - (* Decimal *)
    cbn. destruct depth; reflexivity.
  - (* list *)
    cbn [iterencode decimals_as_floats].
    erewrite mapM_ext_map; [reflexivity|]. exact H.
  - (* dict *)
    cbn [iterencode decimals_as_floats].
    rewrite (mapM_ext_map _
               (fun kv =>
                  try c <- iterencode float_repr encode_basestring_ascii
                             JSONEncoder_base (S depth) (snd kv) in
                  Ok (encode_basestring_ascii (fst kv) +:+ ": " +:+ c))
               (fun kv => (fst kv, decimals_as_floats float_of_Decimal (snd kv)))).
    + reflexivity.
    + eapply Forall_impl; [exact H|].
      intros [k x] Hx. cbn [fst snd] in *.
      exact (f_equal
               (fun r => try c <- r in
                         Ok (encode_basestring_ascii k +:+ ": " +:+ c)) Hx).
Qed.

(** C7.  The line written by [_write_state_message] is the JSON text of
    the state in which every [Decimal], at any depth of lists and dicts,
    is replaced by its float and nothing else is changed: encoding with
    [DecimalEncoder] equals the plain encoding of that normalised state
    (including the [TypeError] for an object that is not serialisable). *)
Theorem C7_decimal_state state stdout :
  dumps float_repr encode_basestring_ascii decimal_encoder state
  = dumps float_repr encode_basestring_ascii JSONEncoder_base
      (normalise state)
  /\ _write_state_message float_of_Decimal float_repr
       encode_basestring_ascii state stdout
     = (try line <- dumps float_repr encode_basestring_ascii
                      JSONEncoder_base (normalise state) in
        Ok (stdout +:+ line +:+ newline)).
Proof.
  assert (E : dumps float_repr encode_basestring_ascii decimal_encoder state
              = dumps float_repr encode_basestring_ascii JSONEncoder_base
                  (normalise state)).
  { unfold dumps, recursion_limit. apply iterencode_DecimalEncoder. }
  split; [exact E|].
  unfold _write_state_message. now rewrite E.
Qed.

(** A state with a [Decimal] bookmark inside a dict and a list. *)
Example dumps_bookmarks d :
  dumps float_repr encode_basestring_ascii decimal_encoder
    (VDict [("pos", VDecimal d); ("seen", VList [VInt 3; VDecimal d])])
  = Ok ("{" +:+ join ", "
          [ encode_basestring_ascii "pos" +:+ ": "
              +:+ float_repr (float_of_Decimal d);
            encode_basestring_ascii "seen" +:+ ": "
              +:+ ("[" +:+ join ", " ["3"; float_repr (float_of_Decimal d)]
                   +:+ "]") ]
        +:+ "}").
Proof. reflexivity. Qed.
End json_facts.

End TargetFacts.

(** * Properties of __init__.py *)

Module PersistFacts.
Import Persist Examples.

Section producer_facts.
Variable parse_message : string -> parse_outcome.
Variable validate : value -> value -> option exception.
Variable flatten : value -> flat_schema -> result flat_record.
Variable flatten_schema : value -> result flat_schema.

Local Abbreviation handle_line :=
  (handle_line parse_message validate flatten flatten_schema).
Local Abbreviation producer_loop :=
  (producer_loop parse_message validate flatten flatten_schema).
Local Abbreviation producer :=
  (producer parse_message validate flatten flatten_schema).
Local Abbreviation persist_messages :=
  (persist_messages parse_message validate flatten flatten_schema).
Local Abbreviation is_state_line := (is_state_line parse_message).
Local Abbreviation is_record_line := (is_record_line parse_message).
Local Abbreviation declares := (declares parse_message).

(** ** One line *)

(** Case analysis on a line that is handled without raising. *)
Ltac handled H :=
  unfold Persist.handle_line in H;
  repeat match type of H with
         | context [match ?x with _ => _ end] =>
             let E := fresh "E" in destruct x eqn:E; cbn [bind] in H
         | context [bind ?x _] =>
             let E := fresh "E" in destruct x eqn:E; cbn [bind] in H
         end;
  try discriminate H.

Lemma handle_line_state_message line v p :
  parse_message line = Parsed (StateMessage v) ->
  handle_line line p = Ok (mk_producer_state (dicts p) v (w_queue p)).
Proof. intros E. unfold Persist.handle_line. now rewrite E. Qed.

Lemma handle_line_record_state line stream record p p' :
  parse_message line = Parsed (RecordMessage stream record) ->
  handle_line line p = Ok p' -> state p' = VNone.
Proof.
  intros E H. unfold Persist.handle_line in H. rewrite E in H. cbn [bind] in H.
  handled H. now injection H as <-.
Qed.

Lemma handle_line_keeps_state line p p' :
  is_state_line line = false -> is_record_line line = false ->
  handle_line line p = Ok p' -> state p' = state p.
Proof.
  unfold Persist.is_state_line, Persist.is_record_line. intros Hs Hr H.
  unfold Persist.handle_line in H.
  destruct (parse_message line) as [[s r|v|s sch kp|s ver]| |e];
    try discriminate; cbn [bind] in H.
  - handled H. now injection H as <-.
  - now injection H as <-.
Qed.

Lemma handle_line_no_state line p p' :
  is_state_line line = false ->
  handle_line line p = Ok p' -> state p' = state p \/ state p' = VNone.
Proof.
  intros Hs H. destruct (is_record_line line) eqn:Hr.
  - right. unfold Persist.is_record_line in Hr.
    destruct (parse_message line) as [[s r|v|s sch kp|s ver]| |e] eqn:E;
      try discriminate.
    eapply handle_line_record_state; eassumption.
  - left. eapply handle_line_keeps_state; eassumption.
Qed.

(** A handled line puts at most a RECORD or a SCHEMA on the queue. *)
Lemma handle_line_queue line p p' :
  handle_line line p = Ok p' ->
  exists items,
    w_queue p' = w_queue p ++ items
    /\ Forall (fun i => is_eof i = false) items.
Proof.
  intros H. unfold Persist.handle_line in H.
  destruct (parse_message line) as [[s r|v|s sch kp|s ver]| |e];
    try discriminate; cbn [bind] in H.
  - handled H. injection H as <-. eexists. split; [reflexivity|].
    repeat constructor.
  - injection H as <-. exists []. split; [now rewrite app_nil_r|constructor].
  - handled H. injection H as <-. eexists. split; [reflexivity|].
    repeat constructor.
  - injection H as <-. exists []. split; [now rewrite app_nil_r|constructor].
Qed.

(** A stream without schema stays so, and gets no record on the queue,
    through any line but its own SCHEMA. *)
Lemma handle_line_undeclared stream line p p' :
  declares stream line = false ->
  schemas (dicts p) !! stream = None ->
  handle_line line p = Ok p' ->
  schemas (dicts p') !! stream = None
  /\ exists items,
       w_queue p' = w_queue p ++ items
       /\ Forall (fun i => is_record_of stream i = false) items.
Proof.
  unfold Persist.declares. intros Hd Hs H. unfold Persist.handle_line in H.
  destruct (parse_message line) as [[s r|v|s sch kp|s ver]| |e];
    try discriminate; cbn [bind] in H.
  - destruct (schemas (dicts p) !! s) eqn:Es; [|discriminate].
    handled H. injection H as <-. cbn [dicts w_queue].
    split; [assumption|]. eexists. split; [reflexivity|].
    constructor; [|constructor]. cbn [is_record_of].
    apply bool_decide_eq_false_2. intros ->. congruence.
  - injection H as <-. split; [assumption|].
    exists []. split; [now rewrite app_nil_r|constructor].
  - handled H. injection H as <-. cbn [dicts schemas w_queue].
    apply bool_decide_eq_false in Hd.
    split; [now rewrite lookup_insert_ne|].
    eexists. split; [reflexivity|]. repeat constructor.
  - injection H as <-. split; [assumption|].
    exists []. split; [now rewrite app_nil_r|constructor].
Qed.

Lemma handle_line_record_undeclared line stream record p :
  parse_message line = Parsed (RecordMessage stream record) ->
  schemas (dicts p) !! stream = None ->
  handle_line line p = Raise (record_before_schema stream).
Proof.
  intros E Hs. unfold Persist.handle_line. rewrite E. cbn [bind].
  now rewrite Hs.
Qed.

(** ** The loop *)

Lemma producer_loop_app l1 l2 p :
  producer_loop (l1 ++ l2) p
  = match producer_loop l1 p with
    | (p1, None) => producer_loop l2 p1
    | (p1, Some e) => (p1, Some e)
    end.
Proof.
  revert p. induction l1 as [|line l1 IH]; intros p; [reflexivity|].
  cbn [app Persist.producer_loop].
  destruct (handle_line line p) as [p'|e]; [apply IH|reflexivity].
Qed.

Lemma producer_loop_queue l p :
  exists items,
    w_queue (fst (producer_loop l p)) = w_queue p ++ items
    /\ Forall (fun i => is_eof i = false) items.
Proof.
  revert p. induction l as [|line l IH]; intros p;
    cbn [Persist.producer_loop].
  - exists []. split; [now rewrite app_nil_r|constructor].
  - destruct (handle_line line p) as [p'|e] eqn:H.
    + destruct (handle_line_queue _ _ _ H) as (i1 & E1 & F1).
      destruct (IH p') as (i2 & E2 & F2).
      exists (i1 ++ i2). rewrite E2, E1, app_assoc.
      split; [reflexivity|now apply Forall_app].
    + exists []. split; [now rewrite app_nil_r|constructor].
Qed.

Lemma producer_loop_keeps_state l p p' :
  (forall line, line ∈ l ->
     is_state_line line = false /\ is_record_line line = false) ->
  producer_loop l p = (p', None) -> state p' = state p.
Proof.
  revert p. induction l as [|line l IH]; intros p Hl;
    cbn [Persist.producer_loop].
  - now intros [= <-].
  - destruct (handle_line line p) as [p1|e] eqn:H; [|discriminate].
    intros Hloop. destruct (Hl line) as [Hs Hr]; [left|].
    rewrite (IH p1); [|intros; apply Hl; now right|assumption].
    eapply handle_line_keeps_state; eassumption.
Qed.

Lemma producer_loop_no_state l p p' :
  (forall line, line ∈ l -> is_state_line line = false) ->
  producer_loop l p = (p', None) ->
  state p = VNone -> state p' = VNone.
Proof.
  revert p. induction l as [|line l IH]; intros p Hl;
    cbn [Persist.producer_loop].
  - now intros [= <-].
  - destruct (handle_line line p) as [p1|e] eqn:H; [|discriminate].
    intros Hloop Hp. apply (IH p1); [intros; apply Hl; now right|assumption|].
    destruct (handle_line_no_state _ _ _ (Hl line ltac:(left)) H);
      congruence.
Qed.

Lemma producer_loop_undeclared stream l p :
  (forall line, line ∈ l -> declares stream line = false) ->
  schemas (dicts p) !! stream = None ->
  schemas (dicts (fst (producer_loop l p))) !! stream = None
  /\ exists items,
       w_queue (fst (producer_loop l p)) = w_queue p ++ items
       /\ Forall (fun i => is_record_of stream i = false) items.
Proof.
  revert p. induction l as [|line l IH]; intros p Hl Hs;
    cbn [Persist.producer_loop].
  - split; [assumption|].
    exists []. split; [now rewrite app_nil_r|constructor].
  - destruct (handle_line line p) as [p1|e] eqn:H.
    + destruct (handle_line_undeclared stream _ _ _
                  (Hl line ltac:(left)) Hs H) as (Hs1 & i1 & E1 & F1).
      destruct (IH p1) as (Hs2 & i2 & E2 & F2);
        [intros; apply Hl; now right|assumption|].
      split; [assumption|].
      exists (i1 ++ i2). rewrite E2, E1, app_assoc.
      split; [reflexivity|now apply Forall_app].
    + split; [assumption|].
      exists []. split; [now rewrite app_nil_r|constructor].
Qed.

(** The producer, in terms of its loop. *)
Lemma producer_spec l :
  producer l
  = (w_queue (fst (producer_loop l initial)) ++ [eof_item],
     match snd (producer_loop l initial) with
     | None => Ok (state (fst (producer_loop l initial)))
     | Some e => Raise e
     end).
Proof.
  unfold Persist.producer.
  destruct (producer_loop l initial) as [p [e|]]; reflexivity.
Qed.

(** ** The consumer *)

Lemma consumer_loop_files files q files' :
  consumer_loop files q = Some files' -> files' = files.
Proof.
  induction q as [|item q IH]; cbn [consumer_loop]; [discriminate|].
  destruct (is_eof item); [now intros [= <-]|exact IH].
Qed.

Lemma consumer_loop_reaches_eof files items rest :
  Forall (fun i => is_eof i = false) items ->
  consumer_loop files (items ++ eof_item :: rest) = Some files.
Proof.
  induction 1 as [|item items Hi _ IH]; cbn [app consumer_loop].
  - reflexivity.
  - now rewrite Hi.
Qed.

Lemma filter_no_eof (items : list queue_item) :
  Forall (fun i => is_eof i = false) items ->
  filter (fun i => is_eof i = true) items = [].
Proof.
  induction 1 as [|i items Hi _ IH]; [reflexivity|].
  rewrite filter_cons_False by congruence. exact IH.
Qed.

(** No input makes the consumer write a file. *)
Lemma persist_messages_files l :
  fst (persist_messages l) = Some [].
Proof.
  unfold Persist.persist_messages. rewrite producer_spec. cbn [fst].
  destruct (producer_loop_queue l initial) as (items & E & F).
  rewrite E. cbn [w_queue initial app].
  unfold consumer. now apply consumer_loop_reaches_eof.
Qed.

Lemma persist_messages_outcome l :
  snd (persist_messages l) = snd (producer l).
Proof.
  unfold Persist.persist_messages. now destruct (producer l).
Qed.

(** ** Claims *)

(** C2.  When a RECORD for a stream comes before any SCHEMA for it, the
    run raises out of [persist_messages], with the [ValueError] of the
    missing schema when the lines before it went through; no file is
    written, and no record of that stream was put on the queue. *)
Theorem C2_record_before_schema pre line post stream record :
  parse_message line = Parsed (RecordMessage stream record) ->
  (forall l, l ∈ pre -> declares stream l = false) ->
  (exists e, snd (persist_messages (pre ++ line :: post)) = Raise e)
  /\ (snd (producer_loop pre initial) = None ->
      snd (persist_messages (pre ++ line :: post))
      = Raise (record_before_schema stream))
  /\ fst (persist_messages (pre ++ line :: post)) = Some []
  /\ Forall (fun i => is_record_of stream i = false)
       (fst (producer (pre ++ line :: post))).
Proof.
  intros Hline Hpre.
  destruct (producer_loop_undeclared stream pre initial Hpre)
    as (Hs & items & Eq & Fq); [apply lookup_empty|].
  rewrite persist_messages_outcome, producer_spec. cbn [fst snd].
  rewrite producer_loop_app.
  destruct (producer_loop pre initial) as [p1 [e|]] eqn:Hloop;
    cbn [fst snd] in *.
  - split; [eauto|]. split; [discriminate|].
    split; [apply persist_messages_files|].
    rewrite Eq. cbn [w_queue initial app].
    apply Forall_app. split; [assumption|]. repeat constructor.
  - cbn [Persist.producer_loop].
    rewrite (handle_line_record_undeclared _ _ _ _ Hline Hs).
    cbn [fst snd].
    split; [eauto|]. split; [reflexivity|].
    split; [apply persist_messages_files|].
    rewrite Eq. cbn [w_queue initial app].
    apply Forall_app. split; [assumption|]. repeat constructor.
Qed.

(** C3.  The state that [persist_messages] returns is the value of the
    last STATE message when no RECORD follows it, and is null when a
    RECORD follows the last STATE message or when there is no STATE
    message; an earlier STATE value never survives a later one. *)
Theorem C3_returned_state messages st :
  snd (persist_messages messages) = Ok st ->
  (forall pre line post v,
     messages = pre ++ line :: post ->
     parse_message line = Parsed (StateMessage v) ->
     (forall l, l ∈ post ->
        is_state_line l = false /\ is_record_line l = false) ->
     st = v)
  /\ (forall pre line post stream record,
     messages = pre ++ line :: post ->
     parse_message line = Parsed (RecordMessage stream record) ->
     (forall l, l ∈ post -> is_state_line l = false) ->
     st = VNone)
  /\ ((forall l, l ∈ messages -> is_state_line l = false) -> st = VNone).
Proof.
  rewrite persist_messages_outcome, producer_spec. cbn [snd].
  destruct (producer_loop messages initial) as [pf [e|]] eqn:Hrun;
    cbn [fst snd]; [discriminate|].
  intros [= <-].
  assert (Hsplit : forall pre line post,
    messages = pre ++ line :: post ->
    exists p1 p2,
      handle_line line p1 = Ok p2 /\ producer_loop post p2 = (pf, None)).
  { intros pre line post ->. rewrite producer_loop_app in Hrun.
    destruct (producer_loop pre initial) as [p1 [e|]]; [discriminate|].
    cbn [Persist.producer_loop] in Hrun.
    destruct (handle_line line p1) as [p2|e] eqn:H; [|discriminate].
    eauto. }
  split; [|split].
  - intros pre line post v E Hline Hpost.
    destruct (Hsplit _ _ _ E) as (p1 & p2 & H & Hloop).
    rewrite (handle_line_state_message _ _ _ Hline) in H.
    injection H as <-.
    now rewrite (producer_loop_keeps_state _ _ _ Hpost Hloop).
  - intros pre line post stream record E Hline Hpost.
    destruct (Hsplit _ _ _ E) as (p1 & p2 & H & Hloop).
    apply (producer_loop_no_state _ _ _ Hpost Hloop).
    eapply handle_line_record_state; eassumption.
  - intros Hall. now apply (producer_loop_no_state _ _ _ Hall Hrun).
Qed.

(** C10.  Whatever the input, hence both when the loop ends and when a
    line raises, the queue the producer leaves holds one end marker, as
    its last item, and the consumer's loop over that queue ends. *)
Theorem C10_producer_eof messages :
  exists items,
    fst (producer messages) = items ++ [eof_item]
    /\ Forall (fun i => is_eof i = false) items
    /\ length (filter (fun i => is_eof i = true) (fst (producer messages)))
       = 1
    /\ last (fst (producer messages)) = Some eof_item
    /\ consumer (fst (producer messages)) = Some [].
Proof.
  rewrite producer_spec. cbn [fst snd].
  destruct (producer_loop_queue messages initial) as (items & E & F).
  rewrite E. cbn [w_queue initial app].
  exists items. split; [reflexivity|]. split; [assumption|].
  split; [|split].
  - rewrite filter_app, length_app.
    now rewrite (filter_no_eof items F).
  - apply last_snoc.
  - unfold consumer. now apply consumer_loop_reaches_eof.
Qed.

End producer_facts.

(** ** The end-to-end scenario *)

Local Abbreviation run_scenario :=
  (persist_messages scenario_parse scenario_validate scenario_flatten
     scenario_flatten_schema).

(** C1, on the code.  For one SCHEMA declaring the string column [col_a] and
    the two records [{col_a: x}], [{col_a: y}], the run returns normally and
    both records reach the queue in input order, but the consumer leaves its
    loop at the end marker without writing: no batch is flushed, where one
    batch of two rows is specified. *)
Theorem C1_scenario_writes_no_batch :
  run_scenario scenario = (Some [], Ok VNone)
  /\ fst (producer scenario_parse scenario_validate scenario_flatten
            scenario_flatten_schema scenario)
     = [ (SCHEMA, Stream "s",
          PSchema [("col_a", VDict [("type", VList [VStr "string"])])]);
         (RECORD, Stream "s", PRecord {[ "col_a" := VStr "x" ]});
         (RECORD, Stream "s", PRecord {[ "col_a" := VStr "y" ]});
         eof_item ].
Proof. split; vm_compute; reflexivity. Qed.

(** What [write_file] makes of these two records, were it called. *)
Lemma write_file_two_rows :
  write_file "out" None false false "/"
    (fun dir f => dir +:+ "/" +:+ f) (fun path => path)
    (fun _ _ => Ok []) no_array_error cell_kept no_cast_error cast_kept
    show_names
    "20240406_000243-280000" "s"
    [{[ "col_a" := VStr "x" ]}; {[ "col_a" := VStr "y" ]}]
    [("col_a", VDict [("type", VList [VStr "string"])])]
  = Ok ("out/s-20240406_000243-280000.parquet",
        mk_dataframe None [("col_a", [VStr "x"; VStr "y"])]).
Proof. vm_compute. reflexivity. Qed.

(** C2 on a record of the undeclared stream [s2]. *)
Lemma C2_record_before_schema_witness :
  snd (run_scenario ["SCHEMA s"; "RECORD s x"; "RECORD s2 z"; "RECORD s y"])
  = Raise (record_before_schema "s2")
  /\ fst (run_scenario
            ["SCHEMA s"; "RECORD s x"; "RECORD s2 z"; "RECORD s y"])
     = Some [].
Proof.
  destruct (C2_record_before_schema scenario_parse scenario_validate
              scenario_flatten scenario_flatten_schema
              ["SCHEMA s"; "RECORD s x"] "RECORD s2 z" ["RECORD s y"]
              "s2" (VDict [("col_a", VStr "z")]))
    as (_ & Herr & Hfiles & _).
  - reflexivity.
  - intros l Hl. rewrite !elem_of_cons, elem_of_nil in Hl.
    destruct Hl as [->|[->|[]]]; reflexivity.
  - split; [|exact Hfiles]. apply Herr. vm_compute. reflexivity.
Defined.

(** C3 on a run that ends with a STATE message. *)
Lemma C3_returned_state_witness :
  (forall pre line post v,
     ["SCHEMA s"; "RECORD s x"; "STATE 7"] = pre ++ line :: post ->
     scenario_parse line = Parsed (StateMessage v) ->
     (forall l, l ∈ post ->
        is_state_line scenario_parse l = false
        /\ is_record_line scenario_parse l = false) ->
     VDict [("bookmark", VInt 7)] = v)
  /\ (forall pre line post stream record,
     ["SCHEMA s"; "RECORD s x"; "STATE 7"] = pre ++ line :: post ->
     scenario_parse line = Parsed (RecordMessage stream record) ->
     (forall l, l ∈ post -> is_state_line scenario_parse l = false) ->
     VDict [("bookmark", VInt 7)] = VNone)
  /\ ((forall l, l ∈ ["SCHEMA s"; "RECORD s x"; "STATE 7"] ->
       is_state_line scenario_parse l = false) ->
      VDict [("bookmark", VInt 7)] = VNone).
Proof.
  apply (C3_returned_state scenario_parse scenario_validate scenario_flatten
           scenario_flatten_schema).
  vm_compute. reflexivity.
Defined.

End PersistFacts.

(** * Further properties of utils/parquet.py *)

Module ParquetMore.
Import Parquet Examples ParquetFacts.

(** ** Case conversion *)

Lemma ascii_upper_idem c : ascii_upper (ascii_upper c) = ascii_upper c.
Proof. destruct c as [[] [] [] [] [] [] [] []]; reflexivity. Qed.

Lemma ascii_lower_upper c : ascii_lower (ascii_upper c) = ascii_lower c.
Proof. destruct c as [[] [] [] [] [] [] [] []]; reflexivity. Qed.

Lemma ascii_upper_lower c : ascii_upper (ascii_lower c) = ascii_upper c.
Proof. destruct c as [[] [] [] [] [] [] [] []]; reflexivity. Qed.

Lemma upper_idem s : upper (upper s) = upper s.
Proof.
  induction s as [|c s IH]; [reflexivity|].
  cbn [upper]. now rewrite ascii_upper_idem, IH.
Qed.

Lemma lower_upper s : lower (upper s) = lower s.
Proof.
  induction s as [|c s IH]; [reflexivity|].
  cbn [upper lower]. now rewrite ascii_lower_upper, IH.
Qed.

Lemma upper_lower s : upper (lower s) = upper s.
Proof.
  induction s as [|c s IH]; [reflexivity|].
  cbn [upper lower]. now rewrite ascii_upper_lower, IH.
Qed.

Lemma upper_truthy s : str_truthy (upper s) = str_truthy s.
Proof. now destruct s. Qed.

Lemma map_upper_idem (l : list string) : map upper (map upper l) = map upper l.
Proof.
  rewrite map_map. apply map_ext. intros. apply upper_idem.
Qed.

(** ** The cast by format *)

Lemma format_mapping_cases fmt :
  FORMAT_MAPPING !! fmt = None
  \/ FORMAT_MAPPING !! fmt = Some "NUMBER"
  \/ FORMAT_MAPPING !! fmt = Some "DATETIME".
Proof.
  destruct (decide (fmt = "date-time")) as [->|H1]; [right; right; reflexivity|].
  destruct (decide (fmt = "singer.decimal")) as [->|H2];
    [right; left; reflexivity|].
  left. now apply format_mapping_other.
Qed.

(** X1.  The cast by format changes a type name only when it is [STRING],
    and then only into [NUMBER] or [DATETIME]; so it maps a kind the type
    table knows to a kind the table knows, and applying it twice is applying
    it once. *)
Theorem cast_by_format_closed fmt ty :
  (_cast_input_type_by_format fmt ty = ty
   \/ (ty = "STRING"
       /\ (_cast_input_type_by_format fmt ty = "NUMBER"
           \/ _cast_input_type_by_format fmt ty = "DATETIME")))
  /\ (ty ∈ recognized_kinds ->
      _cast_input_type_by_format fmt ty ∈ recognized_kinds)
  /\ _cast_input_type_by_format fmt (_cast_input_type_by_format fmt ty)
     = _cast_input_type_by_format fmt ty.
Proof.
  assert (Hc : _cast_input_type_by_format fmt ty = ty
               \/ (ty = "STRING"
                   /\ (_cast_input_type_by_format fmt ty = "NUMBER"
                       \/ _cast_input_type_by_format fmt ty = "DATETIME"))).
  { destruct (decide (ty = "STRING")) as [->|Hty].
    - unfold _cast_input_type_by_format, dict_get.
      rewrite bool_decide_eq_false_2 by (intros E; now apply E).
      destruct (format_mapping_cases fmt) as [-> | [-> | ->]]; cbn; auto.
    - left. now apply cast_not_string. }
  split; [exact Hc|]. split.
  - intros Hty. destruct Hc as [E | [_ [E | E]]]; rewrite E;
      [assumption| |]; unfold recognized_kinds; rewrite !elem_of_cons;
      auto 10.
  - destruct Hc as [E | [_ [E | E]]]; rewrite E;
      [exact E| |]; now apply cast_not_string.
Qed.

Lemma cast_by_format_closed_witness :
  _cast_input_type_by_format "date-time" "STRING" ∈ recognized_kinds.
Proof.
  apply (cast_by_format_closed "date-time" "STRING").
  exact string_recognized.
Defined.

(** ** What the field depends on *)

Lemma resolve_types_truthy it d :
  it_type it = Some d -> decl_truthy d = true ->
  resolve_types it = Ok (decl_names d).
Proof.
  intros Ht Hd. unfold resolve_types. rewrite Ht. cbn [from_option id].
  rewrite Hd. cbn. now destruct d.
Qed.

(** X2.  When ["type"] is present and not empty, the [anyOf] entries are
    not looked at: the field is the same whatever they are. *)
Theorem any_of_ignored field_name it any_of required cbf d :
  it_type it = Some d -> decl_truthy d = true ->
  _field_type_to_pyarrow_field field_name
    (mk_input_types (it_type it) any_of (it_format it)) required cbf
  = _field_type_to_pyarrow_field field_name it required cbf.
Proof.
  intros Ht Hd. unfold _field_type_to_pyarrow_field.
  rewrite (resolve_types_truthy it d Ht Hd).
  now rewrite (resolve_types_truthy (mk_input_types _ _ _) d Ht Hd).
Qed.

Lemma any_of_ignored_witness :
  _field_type_to_pyarrow_field "col_a"
    (mk_input_types (it_type date_time_field) [Some (TypeName "integer")]
       (it_format date_time_field)) [] true
  = _field_type_to_pyarrow_field "col_a" date_time_field [] true.
Proof.
  apply (any_of_ignored "col_a" date_time_field [Some (TypeName "integer")]
           [] true (TypeList ["null"; "string"])); reflexivity.
Defined.

Lemma decl_truthy_upper d : decl_truthy (upper_decl d) = decl_truthy d.
Proof. destruct d as [s|[|t l]]; cbn; [apply upper_truthy| |]; reflexivity. Qed.

Lemma decl_names_upper d : decl_names (upper_decl d) = map upper (decl_names d).
Proof. now destruct d. Qed.

Lemma any_of_names_upper any_of :
  any_of_names (map (option_map upper_decl) any_of)
  = map upper (any_of_names any_of).
Proof.
  induction any_of as [|o rest IH]; [reflexivity|].
  cbn [map any_of_names flat_map]. fold (any_of_names rest).
  fold (any_of_names (map (option_map upper_decl) rest)).
  rewrite map_app, IH. f_equal.
  destruct o as [t|]; [|reflexivity]. cbn [option_map].
  rewrite decl_truthy_upper. destruct (decl_truthy t); [|reflexivity].
  apply decl_names_upper.
Qed.

Lemma declared_types_upper it :
  declared_types (upper_types it) = map upper (declared_types it).
Proof.
  unfold declared_types, upper_types. cbn [it_type it_anyOf].
  destruct (it_type it) as [d|]; cbn [option_map from_option id].
  - rewrite decl_truthy_upper, decl_names_upper.
    destruct (decl_truthy d); [reflexivity|].
    now rewrite map_app, any_of_names_upper.
  - cbn. apply any_of_names_upper.
Qed.

Lemma empty_name_with_any_of_upper it :
  empty_name_with_any_of (upper_types it) = empty_name_with_any_of it.
Proof.
  unfold empty_name_with_any_of, upper_types. cbn [it_type it_anyOf].
  destruct (it_type it) as [[s|l]|]; cbn [option_map upper_decl];
    try reflexivity.
  rewrite upper_truthy, any_of_names_upper.
  now destruct (any_of_names (it_anyOf it)).
Qed.

(** X3.  Type names are read without regard to case: writing every declared
    type name of a fragment in upper case changes neither the field that is
    returned nor the error that is raised. *)
Theorem type_names_case_insensitive field_name it required cbf :
  _field_type_to_pyarrow_field field_name (upper_types it) required cbf
  = _field_type_to_pyarrow_field field_name it required cbf.
Proof.
  unfold _field_type_to_pyarrow_field.
  destruct (empty_name_with_any_of it) eqn:He.
  - unfold resolve_types, upper_types. cbn [it_type it_anyOf].
    unfold empty_name_with_any_of in He.
    destruct (it_type it) as [[s|l]|]; try discriminate.
    apply andb_true_iff in He as [Hs Ha].
    apply negb_true_iff in Hs. cbn [option_map upper_decl from_option id].
    cbn [decl_truthy]. rewrite upper_truthy, Hs. cbn [negb].
    induction (it_anyOf it) as [|o rest IH]; [discriminate|].
    cbn [map any_of_loop].
    destruct o as [t|]; cbn [option_map].
    + rewrite decl_truthy_upper.
      destruct (decl_truthy t) eqn:Ht.
      * destruct t; reflexivity.
      * apply IH. cbn in Ha. now rewrite Ht in Ha.
    + apply IH. exact Ha.
  - rewrite (resolve_types_total it He).
    rewrite (resolve_types_total (upper_types it))
      by now rewrite empty_name_with_any_of_upper.
    cbn [bind]. rewrite declared_types_upper, map_upper_idem. reflexivity.
Qed.

(** ** Runs of [mapM] *)

Lemma mapM_Ok {A B : Type} (f : A -> result B) l ys :
  mapM f l = Ok ys <-> Forall2 (fun x y => f x = Ok y) l ys.
Proof.
  revert ys. induction l as [|x l IH]; intros ys; cbn [mapM].
  - split; [intros [= <-]; constructor|intros H; now inversion H].
  - fold (mapM f l). destruct (f x) as [y|e] eqn:Hx; cbn [bind].
    + destruct (mapM f l) as [ys'|e] eqn:Hl; cbn [bind].
      * split.
        -- intros [= <-]. constructor; [assumption|now apply IH].
        -- intros H. inversion H as [|? y' ? ys'' Hy Hys]; subst.
           apply IH in Hys. congruence.
      * split; [discriminate|].
        intros H. inversion H as [|? y' ? ys'' Hy Hys]; subst.
        apply IH in Hys. discriminate.
    + split; [discriminate|].
      intros H. inversion H; subst. congruence.
Qed.

(** ** Schemas *)

Lemma field_raised field_name it required cbf :
  empty_name_with_any_of it = true ->
  exists msg,
    _field_type_to_pyarrow_field field_name it required cbf
    = Raise (AttributeError msg).
Proof.
  intros H. unfold _field_type_to_pyarrow_field.
  destruct (resolve_types_raises it H) as [msg ->]. cbn [bind]. eauto.
Qed.

Lemma field_name_kept field_name it required cbf f :
  _field_type_to_pyarrow_field field_name it required cbf = Ok f ->
  name f = field_name.
Proof. intros H. apply field_of_declared in H. now subst f. Qed.

(** X4.  A schema that [flatten_schema_to_pyarrow_schema] returns has one
    field per property, named after it, in the order of the properties, each
    being the field of [_field_type_to_pyarrow_field] for the ["required"]
    list given.  No schema is returned when one of the properties has an
    empty ["type"] string next to a typed [anyOf] entry: the call raises. *)
Theorem schema_fields_in_order d cbf :
  (forall S, flatten_schema_to_pyarrow_schema d cbf = Ok S ->
     names S = map fst (default [] (fsd_properties d))
     /\ Forall2
          (fun item fld =>
             _field_type_to_pyarrow_field (fst item) (snd item)
               (default [] (fsd_required d)) cbf = Ok fld)
          (default [] (fsd_properties d)) S)
  /\ (forall item, item ∈ default [] (fsd_properties d) ->
        empty_name_with_any_of (snd item) = true ->
        exists e, flatten_schema_to_pyarrow_schema d cbf = Raise e).
Proof.
  unfold flatten_schema_to_pyarrow_schema.
  set (props := default [] (fsd_properties d)).
  set (req := default [] (fsd_required d)).
  split.
  - intros S HS. apply mapM_Ok in HS. split; [|exact HS].
    unfold names. induction HS as [|item fld props' S' Hf _ IH];
      [reflexivity|].
    cbn [map]. rewrite IH. f_equal. eapply field_name_kept; eassumption.
  - intros item Hin He.
    destruct (mapM (fun item => _field_type_to_pyarrow_field (fst item)
                      (snd item) req cbf) props) as [S|e] eqn:HS; [|eauto].
    exfalso. apply mapM_Ok in HS.
    apply list_elem_of_lookup in Hin as [i Hi].
    destruct (Forall2_lookup_l _ _ _ _ _ HS Hi) as (fld & _ & Hfld).
    destruct (field_raised (fst item) (snd item) req cbf He) as [msg E].
    congruence.
Qed.

Lemma schema_fields_in_order_witness :
  (exists S,
     flatten_schema_to_pyarrow_schema example_properties true = Ok S
     /\ names S = ["key_1"; "key_2__key_3"; "when"])
  /\ exists e,
       flatten_schema_to_pyarrow_schema
         (mk_flatten_schema_dictionary
            (Some [("key_1", junk_field); ("key_2", empty_name_field)]) None)
         true = Raise e.
Proof.
  split.
  - destruct (flatten_schema_to_pyarrow_schema example_properties true)
      as [S|e] eqn:HS; [|vm_compute in HS; discriminate].
    exists S. split; [reflexivity|].
    exact (proj1 (proj1 (schema_fields_in_order example_properties true)
                    S HS)).
  - apply (proj2 (schema_fields_in_order
                    (mk_flatten_schema_dictionary
                       (Some [("key_1", junk_field);
                              ("key_2", empty_name_field)]) None) true)
             ("key_2", empty_name_field)).
    + cbn. right. left.
    + reflexivity.
Defined.

(** ** Tables built from a schema *)

Section more_table_facts.
Variable array_error : list value -> option exception.
Variable array_cell : list value -> value -> value.
Variable cast_error : Field -> list value -> option exception.
Variable cast_cell : Field -> list value -> value -> value.
Variable repr_names : list string -> string.

Local Abbreviation built := (Parquet.built array_cell).
Local Abbreviation converted := (Parquet.converted cast_cell).
Local Abbreviation accepts :=
  (Parquet.accepts array_error array_cell cast_error).
Local Abbreviation create_pyarrow_table :=
  (Parquet.create_pyarrow_table
     array_error array_cell cast_error cast_cell repr_names).
Local Abbreviation concat_tables :=
  (Parquet.concat_tables
     array_error array_cell cast_error cast_cell repr_names).

#[warnings="-inconsistent-scopes"]
Local Abbreviation created rs S :=
  (mk_Table S
     (map (fun fld => (name fld,
                       converted fld (built (column_of rs (name fld)))))
          S)).

(** The keys of the column dictionary are the names asked for. *)
Lemma column_data_keys rs fs f :
  f ∈ map fst (column_data rs fs) <-> f ∈ fs.
Proof.
  unfold column_data.
  enough (G : forall d,
    f ∈ map fst (fold_left
      (fun data f => dict_set f (column_of rs f) data) fs d)
    <-> f ∈ map fst d \/ f ∈ fs).
  { rewrite G. cbn. rewrite elem_of_nil. tauto. }
  induction fs as [|k fs IH]; intros d; cbn [fold_left].
  - rewrite elem_of_nil. tauto.
  - rewrite IH, dict_set_keys, elem_of_cons.
    destruct (decide (k ∈ map fst d)) as [Hin|Hin].
    + rewrite bool_decide_eq_true_2 by assumption.
      split; [tauto|]. intros [H|[->|H]]; auto.
    + rewrite bool_decide_eq_false_2 by assumption.
      rewrite elem_of_app, list_elem_of_singleton. tauto.
Qed.

(** X5.  A schema in which a field name occurs twice never gives a table,
    whatever the records.  When pyarrow builds an array for every column,
    the call raises the [ValueError] of the cast, whose text shows the names
    of the table (each name of the schema, once) and those of the schema. *)
Theorem create_pyarrow_table_repeated_name rs S :
  ~ NoDup (names S) ->
  (forall t, create_pyarrow_table rs S <> Ok t)
  /\ ((forall f, f ∈ names S -> array_error (column_of rs f) = None) ->
      exists keys,
        create_pyarrow_table rs S
        = Raise (ValueError
            ("Target schema's field names are not matching the table's field names: "
             +:+ repr_names keys +:+ ", " +:+ repr_names (names S)))
        /\ NoDup keys
        /\ (forall f, f ∈ keys <-> f ∈ names S)).
Proof.
  intros Hdup. split.
  - intros t Ht. apply create_pyarrow_table_Ok in Ht as (_ & Hnd & _).
    contradiction.
  - intros Harr. exists (map fst (column_data rs (names S))).
    split; [|split; [apply column_data_keys_NoDup|apply column_data_keys]].
    unfold Parquet.create_pyarrow_table, Parquet.pa_table.
    rewrite (mapM_guard_None (fun kc => array_error (snd kc))
               (fun kc => (fst kc, built (snd kc)))).
    + cbn [bind]. unfold Parquet.cast. rewrite !map_map. cbn [fst].
      rewrite bool_decide_eq_false_2; [reflexivity|].
      intros E. apply Hdup. rewrite <- E. apply column_data_keys_NoDup.
    + pose proof (column_data_self_keyed rs (names S)) as Hself.
      rewrite Forall_forall in Hself |- *. intros kc Hin.
      rewrite (Hself kc Hin). apply Harr.
      apply (proj1 (column_data_keys rs (names S) (fst kc))).
      apply list_elem_of_fmap. eauto.
Qed.

(** X6.  The table that [create_pyarrow_table] returns is well-formed: its
    columns are those of its schema, and they all have one length, the
    number of records (no row at all for an empty list of records). *)
Theorem create_pyarrow_table_well_formed rs S t :
  create_pyarrow_table rs S = Ok t ->
  well_formed t
  /\ (forall c, c ∈ tbl_columns t -> length (snd c) = length rs)
  /\ (S <> [] -> num_rows t = length rs).
Proof.
  intros Ht. apply create_pyarrow_table_Ok in Ht as (-> & _ & _).
  pose proof (created_column_length array_cell cast_cell rs S) as Hlen.
  split; [|split; [exact Hlen|apply created_num_rows]].
  split.
  - apply column_names_created.
  - intros c Hc. rewrite (Hlen c Hc).
    destruct S as [|fld S]; [|now rewrite created_num_rows].
    cbn in Hc. now apply elem_of_nil in Hc.
Qed.

(** X7.  A schema that [flatten_schema_to_pyarrow_schema] builds from a
    dictionary of properties (whose keys are distinct) is one that
    [create_pyarrow_table] takes: when pyarrow accepts every column, the
    table is built, with one column per property, in the order of the
    properties. *)
Theorem schema_then_table d cbf S rs :
  flatten_schema_to_pyarrow_schema d cbf = Ok S ->
  NoDup (map fst (default [] (fsd_properties d))) ->
  (forall fld, fld ∈ S -> accepts fld (column_of rs (name fld)) = true) ->
  exists t,
    create_pyarrow_table rs S = Ok t
    /\ column_names t = map fst (default [] (fsd_properties d)).
Proof.
  intros HS Hnd Hacc.
  assert (Hn : names S = map fst (default [] (fsd_properties d))).
  { unfold flatten_schema_to_pyarrow_schema in HS. apply mapM_Ok in HS.
    unfold names. clear Hnd Hacc.
    induction HS as [|item fld props' S' Hf _ IH]; [reflexivity|].
    cbn [map]. rewrite IH. f_equal. eapply field_name_kept; eassumption. }
  rewrite <- Hn in Hnd.
  rewrite (create_pyarrow_table_succeeds array_error array_cell cast_error
             cast_cell repr_names rs S Hnd Hacc).
  eexists. split; [reflexivity|].
  rewrite column_names_created. exact Hn.
Qed.

(** ** Accumulating records *)

Lemma zip_append_names (a b : list (string * list value)) :
  map fst a = map fst b ->
  map fst (zip_with (fun ca cb => (fst ca, snd ca ++ snd cb)) a b)
  = map fst a.
Proof.
  revert b. induction a as [|x a IH]; intros [|y b] E; try discriminate;
    [reflexivity|].
  cbn [zip_with map fst] in *. injection E as _ E. now rewrite IH.
Qed.

Lemma concat_tables_falsy r rs t S :
  table_truthy t = false ->
  concat_tables (r :: rs) t S
  = (try new_table <- create_pyarrow_table (r :: rs) S in
     Ok (Some new_table)).
Proof.
  intros Ht. unfold Parquet.concat_tables.
  destruct (create_pyarrow_table (r :: rs) S); [|reflexivity].
  cbn [bind]. destruct t as [t|]; [|reflexivity]. now rewrite Ht.
Qed.

Lemma concat_tables_truthy r rs t S :
  table_truthy (Some t) = true ->
  concat_tables (r :: rs) (Some t) S
  = (try new_table <- create_pyarrow_table (r :: rs) S in
     try res <- pa_concat_tables t new_table in
     Ok (Some res)).
Proof.
  intros Ht. unfold Parquet.concat_tables.
  destruct (create_pyarrow_table (r :: rs) S); [|reflexivity].
  cbn [bind]. now rewrite Ht.
Qed.

(** X8.  [concat_tables] keeps tables well-formed: with records and a
    well-formed existing table, the result is a table that is well-formed
    again and has the schema passed in, so it can be the existing table of
    the next call. *)
Theorem concat_tables_well_formed records pyarrow_table S r :
  records <> [] ->
  (forall t, pyarrow_table = Some t -> well_formed t) ->
  concat_tables records pyarrow_table S = Ok r ->
  exists res, r = Some res /\ well_formed res /\ tbl_schema res = S.
Proof.
  intros Hrec Hwf. destruct records as [|r0 rs]; [congruence|].
  destruct (table_truthy pyarrow_table) eqn:Ht.
  - destruct pyarrow_table as [t|]; [|discriminate].
    rewrite concat_tables_truthy by assumption.
    destruct (create_pyarrow_table (r0 :: rs) S) as [new|e] eqn:Hnew;
      [|discriminate].
    cbn [bind]. unfold pa_concat_tables.
    destruct (bool_decide _) eqn:Hs; [|discriminate].
    apply bool_decide_eq_true in Hs. cbn [bind]. intros [= <-].
    destruct (Hwf t eq_refl) as [Hcols Hrect].
    destruct (create_pyarrow_table_well_formed _ _ _ Hnew)
      as ([Hcols' Hrect'] & _ & _).
    pose proof (create_pyarrow_table_Ok array_error array_cell cast_error
                  cast_cell repr_names _ _ _ Hnew) as [Hshape _].
    assert (HS : tbl_schema new = S) by now subst new.
    assert (Hn : column_names t = column_names new)
      by now rewrite Hcols, Hcols', Hs.
    eexists. split; [reflexivity|]. split; [|now rewrite <- HS, <- Hs].
    split.
    + unfold column_names at 1. cbn [tbl_columns tbl_schema].
      rewrite zip_append_names by exact Hn. exact Hcols.
    + intros c Hc. rewrite (num_rows_zip_append t new Hn).
      cbn [tbl_columns] in Hc.
      apply list_elem_of_lookup in Hc as [i Hi].
      apply lookup_zip_with_Some in Hi as (ca & cb & -> & Ha & Hb).
      cbn [snd]. rewrite length_app.
      rewrite (Hrect ca), (Hrect' cb); [reflexivity| |];
        apply list_elem_of_lookup; eauto.
  - rewrite concat_tables_falsy by assumption.
    destruct (create_pyarrow_table (r0 :: rs) S) as [new|e] eqn:Hnew;
      [|discriminate].
    cbn [bind]. intros [= <-]. exists new. split; [reflexivity|].
    split; [now apply (create_pyarrow_table_well_formed _ _ _ Hnew)|].
    apply create_pyarrow_table_Ok in Hnew as [-> _]. reflexivity.
Qed.

End more_table_facts.

Local Abbreviation plain_table :=
  (create_pyarrow_table
     no_array_error cell_kept no_cast_error cast_kept show_names).
Local Abbreviation plain_concat :=
  (concat_tables
     no_array_error cell_kept no_cast_error cast_kept show_names).

(** [create_pyarrow_table] on a schema that names [col_a] twice. *)
Lemma create_pyarrow_table_repeated_name_witness :
  (forall t, plain_table [row_x; row_y] twice_col_a <> Ok t)
  /\ exists keys,
       plain_table [row_x; row_y] twice_col_a
       = Raise (ValueError
           ("Target schema's field names are not matching the table's field names: "
            +:+ show_names keys +:+ ", " +:+ show_names ["col_a"; "col_a"]))
       /\ NoDup keys
       /\ (forall f, f ∈ keys <-> f ∈ ["col_a"; "col_a"]).
Proof.
  destruct (create_pyarrow_table_repeated_name no_array_error cell_kept
              no_cast_error cast_kept show_names [row_x; row_y] twice_col_a)
    as [Hno Hraise].
  - intros H. apply NoDup_cons_1_1 in H. apply H. left.
  - split; [exact Hno|]. apply Hraise. reflexivity.
Defined.

Lemma create_pyarrow_table_well_formed_witness :
  well_formed
    (mk_Table two_columns
       [("col_a", [VStr "x"; VStr "y"]); ("col_b", [VNone; VNone])]).
Proof.
  apply (create_pyarrow_table_well_formed no_array_error cell_kept
           no_cast_error cast_kept show_names [row_x; row_y] two_columns).
  vm_compute. reflexivity.
Defined.

Lemma schema_then_table_witness :
  exists S t,
    flatten_schema_to_pyarrow_schema example_properties true = Ok S
    /\ plain_table [row_x; row_y] S = Ok t
    /\ column_names t = ["key_1"; "key_2__key_3"; "when"].
Proof.
  destruct (flatten_schema_to_pyarrow_schema example_properties true)
    as [S|e] eqn:HS; [|vm_compute in HS; discriminate].
  destruct (schema_then_table no_array_error cell_kept no_cast_error
              cast_kept show_names example_properties true S
              [row_x; row_y] HS) as (t & Ht & Hn).
  - compute_done.
  - intros fld _. reflexivity.
  - exists S, t. split; [reflexivity|]. split; [exact Ht|exact Hn].
Defined.

Lemma concat_tables_well_formed_witness :
  exists res,
    plain_concat [row_x; row_y] (Some one_row_table) two_columns
    = Ok (Some res)
    /\ well_formed res /\ tbl_schema res = two_columns.
Proof.
  destruct (plain_concat [row_x; row_y] (Some one_row_table)
              two_columns) as [r|e] eqn:Hr; [|vm_compute in Hr; discriminate].
  destruct (concat_tables_well_formed no_array_error cell_kept no_cast_error
              cast_kept show_names [row_x; row_y]
              (Some one_row_table) two_columns r)
    as (res & -> & Hwf & HS).
  - discriminate.
  - intros t [= <-]. exact one_row_table_well_formed.
  - exact Hr.
  - exists res. split; [reflexivity|]. split; assumption.
Defined.

Section write_facts.
Variable write_to_dataset : write_request -> option exception.

Local Abbreviation write_parquet_file :=
  (Parquet.write_parquet_file write_to_dataset).

(** X10.  [write_parquet_file] looks the extension of the compression
    method up only when a non-empty basename template is given, and before
    the writer is called: with such a template and a method that is not in
    the extension table, it raises [KeyError] and nothing is written.  In
    every other case the writer is called, on the table, the path and the
    method as given, with no partition columns for an empty list and with
    the template extended by the extension and [.parquet]; the call then
    returns or raises as the writer does. *)
Theorem write_parquet_file_outcome table path method basename partition_cols :
  (forall b, basename = Some b -> str_truthy b = true ->
     EXTENSION_MAPPING !! lower method = None ->
     exists key,
       write_parquet_file table path method basename partition_cols
       = Raise (KeyError key))
  /\ (forall name,
        match basename with
        | Some b =>
            if str_truthy b
            then exists ext, EXTENSION_MAPPING !! lower method = Some ext
                             /\ name = Some (b +:+ ext +:+ ".parquet")
            else name = None
        | None => name = None
        end ->
        let request :=
          mk_write_request table path method
            (match partition_cols with
             | Some (c :: cs) => Some (c :: cs)
             | _ => None
             end) name in
        write_parquet_file table path method basename partition_cols
        = match write_to_dataset request with
          | Some e => Raise e
          | None => Ok request
          end).
Proof.
  unfold Parquet.write_parquet_file. split.
  - intros b -> Hb Hm. rewrite Hb, Hm. cbn [bind]. eauto.
  - intros name Hname. destruct basename as [b|].
    + destruct (str_truthy b).
      * destruct Hname as (ext & -> & ->). reflexivity.
      * subst name. reflexivity.
    + subst name. reflexivity.
Qed.

End write_facts.

Lemma write_parquet_file_outcome_witness :
  (exists key,
     write_parquet_file (fun _ => None) one_row_table "out" "zip"
       (Some "part-0") None = Raise (KeyError key))
  /\ write_parquet_file (fun _ => None) one_row_table "out" "GZIP"
       (Some "part-0") (Some [])
     = Ok (mk_write_request one_row_table "out" "GZIP" None
             (Some "part-0.gz.parquet")).
Proof.
  split.
  - apply (proj1 (write_parquet_file_outcome (fun _ => None) one_row_table
                    "out" "zip" (Some "part-0") None) "part-0");
      reflexivity.
  - apply (proj2 (write_parquet_file_outcome (fun _ => None) one_row_table
                    "out" "GZIP" (Some "part-0") (Some []))
             (Some "part-0.gz.parquet")).
    exists ".gz". split; reflexivity.
Defined.

End ParquetMore.

(** * Further properties of target.py *)

Module TargetMore.
Import Target TargetFacts.

Lemma mapM_cases {A B : Type} (f : A -> result B) (ok : A -> bool)
    (Q : exception -> Prop) l :
  Forall (fun x => match f x with
                   | Ok _ => ok x = true
                   | Raise e => ok x = false /\ Q e
                   end) l ->
  match mapM f l with
  | Ok _ => forallb ok l = true
  | Raise e => forallb ok l = false /\ Q e
  end.
Proof.
  induction 1 as [|x l Hx _ IH]; [reflexivity|].
  cbn [mapM forallb]. fold (mapM f l).
  destruct (f x) as [y|e]; cbn [bind].
  - rewrite Hx. cbn [andb].
    destruct (mapM f l) as [ys|e]; cbn [bind]; exact IH.
  - destruct Hx as [Hx HQ]. rewrite Hx. cbn [andb]. now split.
Qed.

Section json_more.
Variable float_of_Decimal : Decimal -> float.
Variable float_repr : float -> string.
Variable encode_basestring_ascii : string -> string.

Local Abbreviation encode := (iterencode float_repr encode_basestring_ascii).
Local Abbreviation is_type_error e := (exists msg, e = TypeError msg).

(** The plain encoder goes through exactly on values of JSON types. *)
Lemma iterencode_plain depth v :
  match encode JSONEncoder_base (S depth) v with
  | Ok _ => json_only v = true
  | Raise e => json_only v = false /\ is_type_error e
  end.
Proof.
  induction v using value_nested_ind; try reflexivity.
  - destruct b; reflexivity.
  - cbn. split; [reflexivity|eauto].
  - cbn [iterencode json_only].
    pose proof (mapM_cases (encode JSONEncoder_base (S depth)) json_only
                  (fun e => is_type_error e) l H) as Hm.
    change (mapM (encode JSONEncoder_base (S depth)) l)
      with (mapM (iterencode float_repr encode_basestring_ascii
                    JSONEncoder_base (S depth)) l) in Hm.
    destruct (mapM _ l) as [chunks|e]; cbn [bind]; exact Hm.
  - cbn [iterencode json_only].
    pose proof (mapM_cases
      (fun kv : string * value =>
         try c <- encode JSONEncoder_base (S depth) (snd kv) in
         Ok (encode_basestring_ascii (fst kv) +:+ ": " +:+ c))
      (fun kv => json_only (snd kv))
      (fun e => is_type_error e) items) as Hm.
    cbv beta in Hm.
    match type of Hm with ?A -> _ => assert (HA : A) end.
    { eapply Forall_impl; [exact H|]. intros [k x] Hx. cbn [fst snd] in *.
      destruct (encode JSONEncoder_base (S depth) x); exact Hx. }
    specialize (Hm HA).
    destruct (mapM _ items) as [chunks|e]; cbn [bind]; exact Hm.
  - cbn. split; [reflexivity|eauto].
Qed.

Lemma json_only_normalised v :
  json_only (decimals_as_floats float_of_Decimal v) = negb (has_object v).
Proof.
  induction v using value_nested_ind; try reflexivity.
  - cbn [decimals_as_floats json_only has_object].
    induction H as [|x l Hx _ IH]; [reflexivity|].
    cbn [map forallb existsb]. now rewrite Hx, IH, negb_orb.
  - cbn [decimals_as_floats json_only has_object].
    induction H as [|[k x] l Hx _ IH]; [reflexivity|].
    cbn [map forallb existsb fst snd] in *. now rewrite Hx, IH, negb_orb.
Qed.

(** X13.  [DecimalEncoder] converts [Decimal]s only: a state in which an
    object of another class occurs (one that json does not encode by itself)
    makes [json.dumps] raise, and [_write_state_message] raises the same
    error. *)
Theorem dumps_decimal_encoder_object state stdout :
  has_object state = true ->
  exists e,
    dumps float_repr encode_basestring_ascii
      (DecimalEncoder float_of_Decimal) state = Raise e
    /\ _write_state_message float_of_Decimal float_repr
         encode_basestring_ascii state stdout = Raise e.
Proof.
  intros Hobj. unfold _write_state_message, dumps, recursion_limit.
  rewrite (iterencode_DecimalEncoder float_of_Decimal float_repr
             encode_basestring_ascii 999 state).
  pose proof (iterencode_plain 999
                (decimals_as_floats float_of_Decimal state)) as H.
  rewrite json_only_normalised, Hobj in H.
  destruct (encode JSONEncoder_base 1000
              (decimals_as_floats float_of_Decimal state)) as [text|e].
  - discriminate.
  - exists e. split; reflexivity.
Qed.

End json_more.

(** A state whose bookmark is a [datetime]. *)
Lemma dumps_decimal_encoder_object_witness :
  exists e,
    dumps (fun _ => "0.0") (fun s => s) (DecimalEncoder (fun _ => mk_float 0))
      (VDict [("bookmark", VObject "datetime")]) = Raise e
    /\ _write_state_message (fun _ => mk_float 0) (fun _ => "0.0")
         (fun s => s) (VDict [("bookmark", VObject "datetime")]) "" = Raise e.
Proof.
  apply (dumps_decimal_encoder_object (fun _ => mk_float 0) (fun _ => "0.0")
           (fun s => s) (VDict [("bookmark", VObject "datetime")]) "").
  reflexivity.
Defined.

End TargetMore.

(** * Further properties of __init__.py *)

Module PersistMore.
Import Persist Examples PersistFacts.

(** The kind and the stream name of a queue item. *)
Local Abbreviation item_key :=
  (fun i : queue_item => (fst (fst i), snd (fst i))).

Section producer_more.
Variable parse_message : string -> parse_outcome.
Variable validate : value -> value -> option exception.
Variable flatten : value -> flat_schema -> result flat_record.
Variable flatten_schema : value -> result flat_schema.
Variable simplejson_dumps : value -> result string.

Local Abbreviation handle_line :=
  (handle_line parse_message validate flatten flatten_schema).
Local Abbreviation producer_loop :=
  (producer_loop parse_message validate flatten flatten_schema).
Local Abbreviation producer :=
  (producer parse_message validate flatten flatten_schema).
Local Abbreviation persist_messages :=
  (persist_messages parse_message validate flatten flatten_schema).
Local Abbreviation main_tail :=
  (main_tail parse_message validate flatten flatten_schema simplejson_dumps).
Local Abbreviation is_state_line := (is_state_line parse_message).
Local Abbreviation is_activate_version_line := (is_activate_version_line parse_message).
Local Abbreviation declares := (declares parse_message).
Local Abbreviation line_item := (line_item parse_message).

Ltac handled H :=
  unfold Persist.handle_line in H;
  repeat match type of H with
         | context [match ?x with _ => _ end] =>
             let E := fresh "E" in destruct x eqn:E; cbn [bind] in H
         | context [bind ?x _] =>
             let E := fresh "E" in destruct x eqn:E; cbn [bind] in H
         end;
  try discriminate H.

(** ** Runs that go through and runs that stop *)

Lemma producer_returns l st :
  snd (producer l) = Ok st ->
  exists p, producer_loop l initial = (p, None) /\ state p = st
            /\ fst (producer l) = w_queue p ++ [eof_item].
Proof.
  rewrite producer_spec. cbn [fst snd].
  destruct (producer_loop l initial) as [p [e|]]; cbn [fst snd];
    [discriminate|].
  intros [= <-]. eauto.
Qed.

Lemma producer_loop_single line p :
  producer_loop [line] p
  = match handle_line line p with
    | Ok p' => (p', None)
    | Raise e => (p, Some e)
    end.
Proof. cbn [Persist.producer_loop]. now destruct (handle_line line p). Qed.

(** X14.  The loop stops at the first line that raises: when the lines
    before it go through, the run raises what that line raises, the lines
    after it play no part, and the queue is the one the lines before it
    leave. *)
Theorem producer_stops_at_first_error pre line post st e :
  snd (producer pre) = Ok st ->
  snd (producer (pre ++ [line])) = Raise e ->
  producer (pre ++ line :: post) = (fst (producer pre), Raise e).
Proof.
  intros Hpre Hline.
  destruct (producer_returns pre st Hpre) as (p & Hloop & _ & Hq).
  rewrite Hq. rewrite producer_spec in Hline. rewrite producer_spec.
  rewrite producer_loop_app, Hloop in Hline.
  rewrite producer_loop_app, Hloop.
  rewrite producer_loop_single in Hline. cbn [Persist.producer_loop].
  destruct (handle_line line p) as [p'|e']; cbn [fst snd] in *;
    [discriminate|].
  now injection Hline as <-.
Qed.

Lemma producer_raises_at pre line p e :
  producer_loop pre initial = (p, None) ->
  handle_line line p = Raise e ->
  snd (producer (pre ++ [line])) = Raise e.
Proof.
  intros Hloop Hline. rewrite producer_spec, producer_loop_app, Hloop.
  rewrite producer_loop_single, Hline. reflexivity.
Qed.

(** X15.  A line that is not JSON stops the run with the [Exception] that
    quotes the line; any other exception of the parser comes out as it is. *)
Theorem unparseable_line pre line post st :
  snd (producer pre) = Ok st ->
  (parse_message line = JSONDecodeError ->
   producer (pre ++ line :: post)
   = (fst (producer pre),
      Raise (Exception_ ("Unable to parse:" +:+ newline +:+ line))))
  /\ (forall e, parse_message line = ParseRaises e ->
      producer (pre ++ line :: post) = (fst (producer pre), Raise e)).
Proof.
  intros Hpre.
  destruct (producer_returns pre st Hpre) as (p & Hloop & _ & _).
  split.
  - intros E. apply (producer_stops_at_first_error pre line post st _ Hpre).
    apply (producer_raises_at pre line p _ Hloop).
    unfold Persist.handle_line. now rewrite E.
  - intros e E. apply (producer_stops_at_first_error pre line post st _ Hpre).
    apply (producer_raises_at pre line p _ Hloop).
    unfold Persist.handle_line. now rewrite E.
Qed.

(** X16.  A SCHEMA message whose schema has no ["properties"] key stops the
    run with [KeyError] of that key. *)
Theorem schema_without_properties pre line post st stream items kp :
  snd (producer pre) = Ok st ->
  parse_message line = Parsed (SchemaMessage stream (VDict items) kp) ->
  assoc "properties" items = None ->
  producer (pre ++ line :: post)
  = (fst (producer pre), Raise (KeyError "properties")).
Proof.
  intros Hpre E Hk.
  destruct (producer_returns pre st Hpre) as (p & Hloop & _ & _).
  apply (producer_stops_at_first_error pre line post st _ Hpre).
  apply (producer_raises_at pre line p _ Hloop).
  unfold Persist.handle_line. rewrite E. cbn [bind getitem].
  now rewrite Hk.
Qed.

(** ** Lines the producer does not know *)

Lemma handle_line_activate_version line p :
  is_activate_version_line line = true -> handle_line line p = Ok p.
Proof.
  unfold Persist.is_activate_version_line, Persist.handle_line.
  destruct (parse_message line) as [[s r|v|s sch kp|s ver]| |e];
    try discriminate.
  reflexivity.
Qed.

Lemma producer_loop_without_activate_version l p :
  producer_loop (filter (fun line => is_activate_version_line line = false) l) p
  = producer_loop l p.
Proof.
  revert p. induction l as [|line l IH]; intros p; [reflexivity|].
  destruct (is_activate_version_line line) eqn:Hu.
  - rewrite filter_cons_False by congruence.
    cbn [Persist.producer_loop]. rewrite handle_line_activate_version by assumption.
    apply IH.
  - rewrite filter_cons_True by assumption.
    cbn [Persist.producer_loop].
    destruct (handle_line line p); [apply IH|reflexivity].
Qed.

(** X17.  ACTIVATE_VERSION messages are passed over by the producer (it logs
    a warning): taking them out of the input changes neither the queue nor
    what the producer returns or raises. *)
Theorem activate_version_lines_skipped messages :
  producer (filter (fun line => is_activate_version_line line = false) messages)
  = producer messages.
Proof.
  unfold Persist.producer. now rewrite producer_loop_without_activate_version.
Qed.

(** ** The queue *)

Lemma handle_line_item line p p' :
  handle_line line p = Ok p' ->
  map item_key (w_queue p')
  = map item_key (w_queue p) ++ option_list (line_item line).
Proof.
  intros H. unfold Persist.line_item. unfold Persist.handle_line in H.
  destruct (parse_message line) as [[s r|v|s sch kp|s ver]| |e];
    try discriminate; cbn [bind] in H.
  - handled H. injection H as <-. cbn [w_queue]. now rewrite map_app.
  - injection H as <-. cbn. now rewrite app_nil_r.
  - handled H. injection H as <-. cbn [w_queue]. now rewrite map_app.
  - injection H as <-. cbn. now rewrite app_nil_r.
Qed.

Lemma producer_loop_items l p p' :
  producer_loop l p = (p', None) ->
  map item_key (w_queue p') = map item_key (w_queue p) ++ omap line_item l.
Proof.
  revert p. induction l as [|line l IH]; intros p;
    cbn [Persist.producer_loop].
  - intros [= <-]. cbn. now rewrite app_nil_r.
  - destruct (handle_line line p) as [p1|e] eqn:H; [|discriminate].
    intros Hloop. rewrite (IH _ Hloop), (handle_line_item _ _ _ H).
    rewrite <- app_assoc. f_equal. cbn [omap list_omap].
    now destruct (line_item line).
Qed.

(** X18.  In a run that returns, the queue holds one item per RECORD and
    SCHEMA line, of that kind and for that stream, in the order of the input,
    and the end marker after them: nothing is dropped, repeated or moved. *)
Theorem queue_follows_input messages st :
  snd (producer messages) = Ok st ->
  map item_key (fst (producer messages))
  = omap line_item messages ++ [(EOF, _break_object)].
Proof.
  intros H. destruct (producer_returns messages st H) as (p & Hloop & _ & ->).
  rewrite map_app, (producer_loop_items _ _ _ Hloop). reflexivity.
Qed.

(** ** The dictionaries *)

(** X19.  The three dictionaries always hold the same streams: at every
    turn of the loop a stream has a flattened schema exactly when it has a
    validator and key properties, so the lookup of the validator of a stream
    that has a schema never fails. *)
Theorem dictionaries_agree messages stream :
  (is_Some (schemas (dicts (fst (producer_loop messages initial))) !! stream)
   <-> is_Some
         (validators (dicts (fst (producer_loop messages initial))) !! stream))
  /\ (is_Some
        (schemas (dicts (fst (producer_loop messages initial))) !! stream)
      <-> is_Some
            (key_properties_ (dicts (fst (producer_loop messages initial)))
               !! stream)).
Proof.
  enough (G : forall l p,
    ((is_Some (schemas (dicts p) !! stream)
      <-> is_Some (validators (dicts p) !! stream))
     /\ (is_Some (schemas (dicts p) !! stream)
         <-> is_Some (key_properties_ (dicts p) !! stream))) ->
    (is_Some (schemas (dicts (fst (producer_loop l p))) !! stream)
     <-> is_Some (validators (dicts (fst (producer_loop l p))) !! stream))
    /\ (is_Some (schemas (dicts (fst (producer_loop l p))) !! stream)
        <-> is_Some
              (key_properties_ (dicts (fst (producer_loop l p))) !! stream))).
  { apply G. cbn. rewrite !lookup_empty.
    split; (split; intros [x Hx]; discriminate). }
  induction l as [|line l IH]; intros p Hp; cbn [Persist.producer_loop];
    [exact Hp|].
  destruct (handle_line line p) as [p1|e] eqn:H; [|exact Hp].
  apply IH. unfold Persist.handle_line in H.
  destruct (parse_message line) as [[s r|v|s sch kp|s ver]| |e];
    try discriminate; cbn [bind] in H.
  - handled H. now injection H as <-.
  - now injection H as <-.
  - handled H. injection H as <-.
    cbn [dicts schemas validators key_properties_].
    destruct (decide (s = stream)) as [->|Hs].
    + rewrite !lookup_insert_eq. split; split; eauto.
    + now rewrite !lookup_insert_ne by assumption.
  - now injection H as <-.
Qed.

Lemma handle_line_keeps_stream stream line p p' :
  declares stream line = false ->
  handle_line line p = Ok p' ->
  schemas (dicts p') !! stream = schemas (dicts p) !! stream
  /\ validators (dicts p') !! stream = validators (dicts p) !! stream.
Proof.
  unfold Persist.declares. intros Hd H. unfold Persist.handle_line in H.
  destruct (parse_message line) as [[s r|v|s sch kp|s ver]| |e];
    try discriminate; cbn [bind] in H.
  - handled H. now injection H as <-.
  - now injection H as <-.
  - handled H. injection H as <-. cbn [dicts schemas validators].
    apply bool_decide_eq_false in Hd.
    now rewrite !lookup_insert_ne by assumption.
  - now injection H as <-.
Qed.

Lemma producer_loop_keeps_stream stream l p p' :
  (forall line, line ∈ l -> declares stream line = false) ->
  producer_loop l p = (p', None) ->
  schemas (dicts p') !! stream = schemas (dicts p) !! stream
  /\ validators (dicts p') !! stream = validators (dicts p) !! stream.
Proof.
  revert p. induction l as [|line l IH]; intros p Hl;
    cbn [Persist.producer_loop].
  - now intros [= <-].
  - destruct (handle_line line p) as [p1|e] eqn:H; [|discriminate].
    intros Hloop.
    destruct (handle_line_keeps_stream stream _ _ _ (Hl line ltac:(left)) H)
      as [E1 E2].
    destruct (IH p1) as [E3 E4]; [intros; apply Hl; now right|assumption|].
    split; congruence.
Qed.

(** After the latest SCHEMA of a stream, the dictionaries hold what it
    declared. *)
Lemma latest_schema before line after stream schema kp p :
  parse_message line = Parsed (SchemaMessage stream schema kp) ->
  (forall l, l ∈ after -> declares stream l = false) ->
  producer_loop (before ++ line :: after) initial = (p, None) ->
  validators (dicts p) !! stream = Some schema
  /\ exists properties flattened,
       getitem schema "properties" = Ok properties
       /\ flatten_schema properties = Ok flattened
       /\ schemas (dicts p) !! stream = Some flattened.
Proof.
  intros E Hafter Hloop. rewrite producer_loop_app in Hloop.
  destruct (producer_loop before initial) as [p0 [e|]]; [discriminate|].
  cbn [Persist.producer_loop] in Hloop.
  destruct (handle_line line p0) as [p1|e] eqn:H; [|discriminate].
  destruct (producer_loop_keeps_stream stream _ _ _ Hafter Hloop) as [-> ->].
  unfold Persist.handle_line in H. rewrite E in H. cbn [bind] in H.
  destruct (getitem schema "properties") as [props|] eqn:Hp; [|discriminate].
  cbn [bind] in H.
  destruct (flatten_schema props) as [flat|] eqn:Hf; [|discriminate].
  cbn [bind] in H. injection H as <-.
  cbn [dicts schemas validators]. rewrite !lookup_insert_eq.
  split; [reflexivity|]. eauto.
Qed.

(** X20.  A record is checked against the schema of the latest SCHEMA
    message of its stream: when the validator built from that schema rejects
    it, the run stops with the validator's error, and the record does not
    reach the queue. *)
Theorem invalid_record_stops_run before line after record_line post
    stream schema kp record st e :
  parse_message line = Parsed (SchemaMessage stream schema kp) ->
  (forall l, l ∈ after -> declares stream l = false) ->
  snd (producer (before ++ line :: after)) = Ok st ->
  parse_message record_line = Parsed (RecordMessage stream record) ->
  validate schema record = Some e ->
  producer ((before ++ line :: after) ++ record_line :: post)
  = (fst (producer (before ++ line :: after)), Raise e).
Proof.
  intros E Hafter Hpre Er Hv.
  destruct (producer_returns _ st Hpre) as (p & Hloop & _ & _).
  destruct (latest_schema _ _ _ _ _ _ _ E Hafter Hloop)
    as (Hval & props & flat & _ & _ & Hsch).
  apply (producer_stops_at_first_error _ record_line post st _ Hpre).
  apply (producer_raises_at _ record_line p _ Hloop).
  unfold Persist.handle_line. rewrite Er. cbn [bind].
  rewrite Hsch, Hval. cbn [bind]. now rewrite Hv.
Qed.

(** X21.  A record that goes through is flattened against the flattened
    schema of the latest SCHEMA message of its stream, and that flattened
    record is put last on the queue, before the end marker. *)
Theorem record_uses_latest_schema before line after record_line
    stream schema kp record st st' :
  parse_message line = Parsed (SchemaMessage stream schema kp) ->
  (forall l, l ∈ after -> declares stream l = false) ->
  snd (producer (before ++ line :: after)) = Ok st ->
  parse_message record_line = Parsed (RecordMessage stream record) ->
  snd (producer ((before ++ line :: after) ++ [record_line])) = Ok st' ->
  exists properties flattened flattened_record items,
    getitem schema "properties" = Ok properties
    /\ flatten_schema properties = Ok flattened
    /\ flatten record flattened = Ok flattened_record
    /\ validate schema record = None
    /\ fst (producer (before ++ line :: after)) = items ++ [eof_item]
    /\ fst (producer ((before ++ line :: after) ++ [record_line]))
       = items ++ [(RECORD, Stream stream, PRecord flattened_record);
                   eof_item].
Proof.
  intros E Hafter Hpre Er Hrun.
  destruct (producer_returns _ st Hpre) as (p & Hloop & _ & Hq).
  destruct (latest_schema _ _ _ _ _ _ _ E Hafter Hloop)
    as (Hval & props & flat & Hp & Hf & Hsch).
  pose proof (producer_spec parse_message validate flatten flatten_schema
                ((before ++ line :: after) ++ [record_line])) as Hspec.
  rewrite producer_loop_app, Hloop, producer_loop_single in Hspec.
  unfold Persist.handle_line in Hspec. rewrite Er in Hspec.
  cbn [bind] in Hspec. rewrite Hsch, Hval in Hspec. cbn [bind] in Hspec.
  rewrite Hspec in Hrun. rewrite Hspec, Hq. clear Hspec.
  destruct (validate schema record) as [e|] eqn:Hv; [discriminate|].
  destruct (flatten record flat) as [fr|e] eqn:Hfr; [|discriminate].
  cbn [bind fst snd w_queue] in *.
  exists props, flat, fr, (w_queue p).
  repeat split; try assumption. now rewrite <- app_assoc.
Qed.

(** ** The state line *)

Lemma returned_state_after_record pre line post stream record st :
  parse_message line = Parsed (RecordMessage stream record) ->
  (forall l, l ∈ post -> is_state_line l = false) ->
  snd (producer (pre ++ line :: post)) = Ok st -> st = VNone.
Proof.
  intros E Hpost Hrun.
  destruct (producer_returns _ st Hrun) as (p & Hloop & <- & _).
  rewrite producer_loop_app in Hloop.
  destruct (producer_loop pre initial) as [p1 [e|]]; [discriminate|].
  cbn [Persist.producer_loop] in Hloop.
  destruct (handle_line line p1) as [p2|e] eqn:H; [|discriminate].
  apply (producer_loop_no_state parse_message validate flatten flatten_schema
           _ _ _ Hpost Hloop).
  eapply handle_line_record_state; eassumption.
Qed.

(** X22.  At the end of [main] no state line is written when the run
    raises, nor when a RECORD follows the last STATE message: the text of
    stdout is then left as it was.  A state that is returned and is not null
    is written as one line. *)
Theorem state_line_at_the_end messages stdout :
  (forall e, snd (persist_messages messages) = Raise e ->
     main_tail messages stdout = Raise e)
  /\ (forall pre line post stream record st,
        messages = pre ++ line :: post ->
        parse_message line = Parsed (RecordMessage stream record) ->
        (forall l, l ∈ post -> is_state_line l = false) ->
        snd (persist_messages messages) = Ok st ->
        main_tail messages stdout = Ok stdout)
  /\ (forall st, snd (persist_messages messages) = Ok st -> st <> VNone ->
        main_tail messages stdout
        = (try text <- simplejson_dumps st in
           Ok (stdout +:+ text +:+ newline))).
Proof.
  unfold Persist.main_tail. split; [|split].
  - intros e ->. reflexivity.
  - intros pre line post stream record st -> E Hpost Hrun.
    rewrite Hrun. cbn [bind].
    rewrite persist_messages_outcome in Hrun.
    now rewrite (returned_state_after_record _ _ _ _ _ _ E Hpost Hrun).
  - intros st -> Hst. cbn [bind]. now destruct st.
Qed.

End producer_more.

Local Abbreviation more_producer :=
  (producer more_parse more_validate scenario_flatten scenario_flatten_schema).

Lemma producer_stops_at_first_error_witness :
  more_producer (["SCHEMA s"; "RECORD s x"] ++ "RECORD s2 z" :: ["RECORD s y"])
  = (fst (more_producer ["SCHEMA s"; "RECORD s x"]),
     Raise (record_before_schema "s2")).
Proof.
  apply (producer_stops_at_first_error more_parse more_validate
           scenario_flatten scenario_flatten_schema
           ["SCHEMA s"; "RECORD s x"] "RECORD s2 z" ["RECORD s y"] VNone);
    vm_compute; reflexivity.
Defined.

Lemma unparseable_line_witness :
  more_producer (["SCHEMA s"; "RECORD s x"] ++ "{oops" :: ["RECORD s y"])
  = (fst (more_producer ["SCHEMA s"; "RECORD s x"]),
     Raise (Exception_ ("Unable to parse:" +:+ newline +:+ "{oops"))).
Proof.
  destruct (unparseable_line more_parse more_validate scenario_flatten
              scenario_flatten_schema ["SCHEMA s"; "RECORD s x"] "{oops"
              ["RECORD s y"] VNone) as [H _].
  - vm_compute. reflexivity.
  - apply H. reflexivity.
Defined.

Lemma schema_without_properties_witness :
  more_producer (["SCHEMA s"; "RECORD s x"] ++ "SCHEMA s bare" :: ["RECORD s y"])
  = (fst (more_producer ["SCHEMA s"; "RECORD s x"]),
     Raise (KeyError "properties")).
Proof.
  apply (schema_without_properties more_parse more_validate scenario_flatten
           scenario_flatten_schema ["SCHEMA s"; "RECORD s x"] "SCHEMA s bare"
           ["RECORD s y"] VNone "s" [("type", VStr "object")] (VList []));
    vm_compute; reflexivity.
Defined.

Lemma queue_follows_input_witness :
  map item_key
    (fst (more_producer ["SCHEMA s"; "ACTIVATE_VERSION s"; "RECORD s x";
                         "STATE 7"; "RECORD s y"]))
  = [(SCHEMA, Stream "s"); (RECORD, Stream "s"); (RECORD, Stream "s");
     (EOF, _break_object)].
Proof.
  rewrite (queue_follows_input more_parse more_validate scenario_flatten
             scenario_flatten_schema _ VNone).
  - vm_compute. reflexivity.
  - vm_compute. reflexivity.
Defined.

Lemma invalid_record_stops_run_witness :
  more_producer (([] ++ "SCHEMA s" :: ["RECORD s x"])
                 ++ "RECORD s 1" :: ["RECORD s y"])
  = (fst (more_producer ([] ++ "SCHEMA s" :: ["RECORD s x"])),
     Raise (ValidationError "1 is not of type 'string'")).
Proof.
  apply (invalid_record_stops_run more_parse more_validate scenario_flatten
           scenario_flatten_schema [] "SCHEMA s" ["RECORD s x"] "RECORD s 1"
           ["RECORD s y"] "s" col_a_schema (VList [])
           (VDict [("col_a", VInt 1)]) VNone).
  - reflexivity.
  - intros l Hl. rewrite !elem_of_cons, elem_of_nil in Hl.
    destruct Hl as [->|[]]. reflexivity.
  - vm_compute. reflexivity.
  - reflexivity.
  - reflexivity.
Defined.

Lemma record_uses_latest_schema_witness :
  exists properties flattened flattened_record items,
    getitem col_a_schema "properties" = Ok properties
    /\ scenario_flatten_schema properties = Ok flattened
    /\ scenario_flatten (VDict [("col_a", VStr "y")]) flattened
       = Ok flattened_record
    /\ more_validate col_a_schema (VDict [("col_a", VStr "y")]) = None
    /\ fst (more_producer ([] ++ "SCHEMA s" :: ["RECORD s x"]))
       = items ++ [eof_item]
    /\ fst (more_producer (([] ++ "SCHEMA s" :: ["RECORD s x"])
                           ++ ["RECORD s y"]))
       = items ++ [(RECORD, Stream "s", PRecord flattened_record); eof_item].
Proof.
  apply (record_uses_latest_schema more_parse more_validate scenario_flatten
           scenario_flatten_schema [] "SCHEMA s" ["RECORD s x"] "RECORD s y"
           "s" col_a_schema (VList []) (VDict [("col_a", VStr "y")])
           VNone VNone).
  - reflexivity.
  - intros l Hl. rewrite !elem_of_cons, elem_of_nil in Hl.
    destruct Hl as [->|[]]. reflexivity.
  - vm_compute. reflexivity.
  - reflexivity.
  - vm_compute. reflexivity.
Defined.

Lemma state_line_at_the_end_witness :
  main_tail more_parse more_validate scenario_flatten scenario_flatten_schema
    more_dumps ["SCHEMA s"; "STATE 7"; "RECORD s x"] "log"
  = Ok "log".
Proof.
  destruct (state_line_at_the_end more_parse more_validate scenario_flatten
              scenario_flatten_schema more_dumps
              ["SCHEMA s"; "STATE 7"; "RECORD s x"] "log") as (_ & H & _).
  apply (H ["SCHEMA s"; "STATE 7"] "RECORD s x" [] "s"
           (VDict [("col_a", VStr "x")]) VNone).
  - reflexivity.
  - reflexivity.
  - intros l Hl. now apply elem_of_nil in Hl.
  - vm_compute. reflexivity.
Defined.

(** ** Compression and the legacy table *)

Lemma extension_tables_agree m :
  extension_mapping !! upper m = Parquet.EXTENSION_MAPPING !! lower m.
Proof.
  assert (Hup : forall k, lower m = k -> upper m = upper k).
  { intros k <-. symmetry. apply ParquetMore.upper_lower. }
  assert (Hlow : forall K, upper m = K -> lower m = lower K).
  { intros K <-. symmetry. apply ParquetMore.lower_upper. }
  destruct (decide (lower m = "snappy")) as [E|N1];
    [rewrite (Hup _ E), E; reflexivity|].
  destruct (decide (lower m = "gzip")) as [E|N2];
    [rewrite (Hup _ E), E; reflexivity|].
  destruct (decide (lower m = "brotli")) as [E|N3];
    [rewrite (Hup _ E), E; reflexivity|].
  destruct (decide (lower m = "zstd")) as [E|N4];
    [rewrite (Hup _ E), E; reflexivity|].
  destruct (decide (lower m = "lz4")) as [E|N5];
    [rewrite (Hup _ E), E; reflexivity|].
  transitivity (@None string); [|symmetry].
  - unfold extension_mapping. apply not_elem_of_list_to_map_1. cbn.
    rewrite !elem_of_cons, elem_of_nil.
    intros [E|[E|[E|[E|[E|[]]]]]]; apply Hlow in E;
      [apply N1|apply N2|apply N3|apply N4|apply N5]; rewrite E;
      reflexivity.
  - unfold Parquet.EXTENSION_MAPPING. apply not_elem_of_list_to_map_1. cbn.
    rewrite !elem_of_cons, elem_of_nil. intuition congruence.
Qed.

(** X23.  For a compression method written in ASCII, the extension that
    [persist_messages] computes is the one of [EXTENSION_MAPPING] in
    utils/parquet.py for that method in lower case, and empty for a method
    that is not there; such a method is not passed on to the writer ([None]
    is). *)
Theorem compression_extension_agrees m :
  is_ascii m = true ->
  fst (compression (Some m))
  = dict_get Parquet.EXTENSION_MAPPING (lower m) ""
  /\ (snd (compression (Some m)) = None
      <-> (m <> "" /\ Parquet.EXTENSION_MAPPING !! lower m = None))
  /\ (snd (compression (Some m)) <> None -> snd (compression (Some m)) = Some m).
Proof.
  intros _. unfold compression, dict_get. destruct m as [|c m'].
  - cbn. split; [reflexivity|]. split; [|reflexivity].
    split; [discriminate|intros [H _]; congruence].
  - cbn [str_truthy]. rewrite extension_tables_agree.
    destruct (Parquet.EXTENSION_MAPPING !! lower (String c m')) as [ext|];
      cbn [fst snd default from_option id].
    + split; [reflexivity|]. split; [|reflexivity].
      split; [discriminate|intros [_ H]; discriminate].
    + split; [reflexivity|]. split; [|congruence].
      split; [|reflexivity]. intros _. split; [discriminate|reflexivity].
Qed.

(** ** [create_dataframe] *)

Lemma fold_union_keys (l : list flat_record) (acc : gset string) f :
  f ∈ fold_left (fun fields d => fields ∪ dom d) l acc
  <-> f ∈ acc \/ exists d, d ∈ l /\ f ∈ dom d.
Proof.
  revert acc. induction l as [|d l IH]; intros acc; cbn [fold_left].
  - split; [auto|]. intros [H|(d & Hd & _)]; [assumption|].
    now apply elem_of_nil in Hd.
  - rewrite IH, elem_of_union. split.
    + intros [[H|H]|(d' & Hd' & H)]; [auto| |].
      * right. exists d. split; [left|assumption].
      * right. exists d'. split; [now right|assumption].
    + intros [H|(d' & Hd' & H)]; [auto|].
      apply elem_of_cons in Hd' as [->|Hd']; [auto|].
      right. eauto.
Qed.

(** X24.  Without the forced cast, [create_dataframe] returns whenever
    pyarrow builds an array for the column of every key that occurs in some
    record, whatever the schema.  The table it returns has a schema of its
    own and one column for each such key, each name once; the column of a
    key holds, record by record, what pyarrow stores for the value under
    that key, and null where the record lacks it. *)
Theorem create_dataframe_columns helper array_error array_cell cast_error
    cast_cell repr_names list_dict schema :
  ((forall f, (exists r, r ∈ list_dict /\ is_Some (r !! f)) ->
      array_error (Parquet.column_of list_dict f) = None) ->
   exists df,
     create_dataframe false helper array_error array_cell cast_error
       cast_cell repr_names list_dict schema = Ok df)
  /\ (forall df,
        create_dataframe false helper array_error array_cell cast_error
          cast_cell repr_names list_dict schema = Ok df ->
        df_schema df = None
        /\ NoDup (map fst (df_columns df))
        /\ (forall f, f ∈ map fst (df_columns df)
                      <-> exists r, r ∈ list_dict /\ is_Some (r !! f))
        /\ (forall f c, (f, c) ∈ df_columns df ->
              c = Parquet.built array_cell (Parquet.column_of list_dict f)
              /\ length c = length list_dict)
        /\ (forall f c i r, (f, c) ∈ df_columns df ->
              list_dict !! i = Some r -> r !! f = None ->
              c !! i = Some VNone)).
Proof.
  unfold create_dataframe.
  set (fields := fold_left (fun fields d => fields ∪ dom d) list_dict ∅).
  assert (Hkeys : forall f, f ∈ elements fields
                            <-> exists r, r ∈ list_dict /\ is_Some (r !! f)).
  { intros f. subst fields. rewrite elem_of_elements, fold_union_keys.
    split.
    - intros [H|(d & Hd & H)]; [now apply elem_of_empty in H|].
      exists d. split; [assumption|]. now apply elem_of_dom.
    - intros (r & Hr & H). right. exists r. split; [assumption|].
      now apply elem_of_dom. }
  split.
  - intros Harr. unfold Parquet.pa_table.
    rewrite (ParquetFacts.mapM_guard_None
               (fun kc => array_error (snd kc))
               (fun kc => (fst kc, Parquet.built array_cell (snd kc)))).
    + cbn [bind]. eauto.
    + rewrite Forall_fmap. apply Forall_forall. intros f Hf. cbn.
      apply Harr. now apply Hkeys.
  - intros df.
    destruct (Parquet.pa_table _ _ _) as [table|e] eqn:Htable; cbn [bind];
      [|discriminate].
    intros [= <-]. cbn [df_schema df_columns].
    apply ParquetFacts.pa_table_Ok in Htable as [-> _].
    rewrite !map_map. cbn [fst snd]. rewrite map_id.
    split; [reflexivity|]. split; [apply NoDup_elements|].
    split; [exact Hkeys|]. split.
    + intros f c Hc. apply list_elem_of_fmap in Hc as (f' & [= -> ->] & _).
      split; [reflexivity|]. unfold Parquet.built.
      now rewrite !length_map.
    + intros f c i r Hc Hi Hr.
      apply list_elem_of_fmap in Hc as (f' & [= -> ->] & _).
      unfold Parquet.built. rewrite !list_lookup_fmap, Hi. cbn.
      unfold Parquet.row_get. now rewrite Hr.
Qed.

Lemma create_dataframe_columns_witness :
  exists df,
    create_dataframe false (fun _ _ => Ok []) no_array_error cell_kept
      no_cast_error cast_kept show_names
      [{[ "col_a" := VStr "x" ]}; {[ "col_a" := VStr "y" ]}] []
    = Ok df.
Proof.
  apply (create_dataframe_columns (fun _ _ => Ok []) no_array_error cell_kept
           no_cast_error cast_kept show_names
           [{[ "col_a" := VStr "x" ]}; {[ "col_a" := VStr "y" ]}] []).
  reflexivity.
Defined.

Lemma compression_extension_agrees_witness :
  fst (compression (Some "GZip")) = ".gz"
  /\ snd (compression (Some "GZip")) = Some "GZip".
Proof.
  destruct (compression_extension_agrees "GZip" eq_refl)
    as (Hext & _ & Hkept).
  split; [rewrite Hext; reflexivity|].
  apply Hkept. vm_compute. discriminate.
Defined.

End PersistMore.
